(** * AURAChain UI: the session / orchestration store

    A shallow embedding of [aurachain-ui/src/store/uiStore.ts] (the zustand
    store behind the chat dashboard) together with the submit handler of
    [components/Chat/InputPanel.tsx].

    The store's actions are asynchronous and effectful: they read and replace
    the store state ([get] / [set]), read the wall clock ([Date.now()],
    [new Date()]), call the remote API, wait on timers and write to the
    console.  They are embedded in a state-and-exception monad over a
    [World]; the answers of the outside (clock readings, locale formatting,
    API replies) come from an [Env].  One invocation runs from its first to
    its last statement, no other invocation running in between. *)

From Stdlib Require Import PrimFloat FloatOps SpecFloat Uint63 FloatAxioms.
From Stdlib Require Import ZArith Ascii Reals Lra Lia.
From stdpp Require Import gmap strings list fin_maps pretty.

(** ** JavaScript numbers

    A JS [number] is an IEEE-754 binary64 value: Rocq's primitive [float],
    with its division and multiplication.  Counters and lengths are
    integers far below 2^53, which numbers hold exactly; they are kept in [Z]
    and turned into numbers where the store computes with them. *)

Abbreviation number := float.

(** The number holding the integer [z] (exact for [|z| < 2^53]). *)
Definition num (z : Z) : number :=
  if (z <? 0)%Z
  then PrimFloat.opp (PrimFloat.of_uint63 (Uint63.of_Z (- z)))
  else PrimFloat.of_uint63 (Uint63.of_Z z).

(** [Math.round]: the integer nearest to [x], ties going towards +infinity.
    NaN, the infinities, the zeros and the values that are integers already
    are returned as they are; a value that rounds to zero keeps the sign of
    [x].  For [x = v * 2^e] with [e < 0] the result is
    [floor ((v + 2^(-e-1)) / 2^(-e))], computed on the mantissa. *)
Definition Math_round (x : number) : number :=
  match Prim2SF x with
  | S754_finite s m e =>
      if (0 <=? e)%Z then x
      else
        let v := if s then Z.neg m else Z.pos m in
        let n := Z.shiftr (v + Z.shiftl 1 (- e - 1)) (- e) in
        if (n =? 0)%Z then (if s then (-0)%float else 0%float) else num n
  | _ => x
  end.

(** [a <= b] on numbers (false as soon as one of them is NaN). *)
Definition num_le (a b : number) : bool := PrimFloat.leb a b.

(** ** JavaScript strings and truthiness *)

(** [x || d] on an optional string: [undefined], [null] and the empty string
    are falsy. *)
Definition or_else (x : option string) (d : string) : string :=
  match x with
  | Some (String c s) => String c s
  | _ => d
  end.

(** [!x] on an optional string. *)
Definition falsy (x : option string) : bool :=
  match x with
  | Some (String _ _) => false
  | _ => true
  end.

(** Strings are sequences of bytes, text being in UTF-8. *)
Definition utf8 (bytes : list N) : string :=
  String.string_of_list_ascii (Ascii.ascii_of_N <$> bytes).

(** The code points that [String.prototype.trim] strips (WhiteSpace and
    LineTerminator of ECMAScript), in their UTF-8 encoding: TAB, LF, VT, FF,
    CR, SPACE, U+00A0, U+1680, U+2000..U+200A, U+2028, U+2029, U+202F, U+205F,
    U+3000, U+FEFF. *)
Definition white_space : list string :=
  (utf8 <$> [[9]; [10]; [11]; [12]; [13]; [32]; [194; 160]; [225; 154; 128]]%N)
  ++ ((λ b, utf8 [226; 128; b]%N) <$>
        [128; 129; 130; 131; 132; 133; 134; 135; 136; 137; 138; 168; 169; 175]%N)
  ++ (utf8 <$> [[226; 129; 159]; [227; 128; 128]; [239; 187; 191]]%N).

(** [s] without its prefix [p], if it starts with [p]. *)
Fixpoint strip_prefix (p s : string) : option string :=
  match p, s with
  | EmptyString, _ => Some s
  | String a p', String b s' =>
      if Ascii.eqb a b then strip_prefix p' s' else None
  | String _ _, EmptyString => None
  end.

(** Drops one leading white-space code point, if there is one. *)
Definition drop_space (s : string) : option string :=
  list_find (λ r : option string, is_Some r)
            ((λ p, strip_prefix p s) <$> white_space) ≫= snd.

Fixpoint trimStart_go (fuel : nat) (s : string) : string :=
  match fuel with
  | O => s
  | S fuel' =>
      match drop_space s with
      | Some s' => trimStart_go fuel' s'
      | None => s
      end
  end.

(** [s.trimStart()]; a string has no more code points than bytes. *)
Definition trimStart (s : string) : string := trimStart_go (String.length s) s.

(** The same from the end: on the reversed string the reversed encodings are
    prefixes (UTF-8 is self-synchronising). *)
Definition drop_space_end (r : string) : option string :=
  list_find (λ o : option string, is_Some o)
            ((λ p, strip_prefix (String.rev p) r) <$> white_space) ≫= snd.

Fixpoint trimEnd_go (fuel : nat) (r : string) : string :=
  match fuel with
  | O => r
  | S fuel' =>
      match drop_space_end r with
      | Some r' => trimEnd_go fuel' r'
      | None => r
      end
  end.

(** [s.trimEnd()] *)
Definition trimEnd (s : string) : string :=
  String.rev (trimEnd_go (String.length s) (String.rev s)).

(** [s.trim()] *)
Definition trim (s : string) : string := trimEnd (trimStart s).

(** [s.includes(t)] *)
Fixpoint includes (s t : string) : bool :=
  match strip_prefix t s with
  | Some _ => true
  | None => match s with
            | EmptyString => false
            | String _ s' => includes s' t
            end
  end.

(** ** The data of the chat *)

(** A value of type [any] (the payload of an agent's answer). *)
#[warnings="-register-all"]
Inductive JSValue :=
| JNull
| JBool (b : bool)
| JNum (x : number)
| JStr (s : string)
| JArr (l : list JSValue)
| JObj (l : list (string * JSValue)).

Inductive Sender := user | ai.

(** ['text' | 'analysis' | 'agent_result'] *)
Inductive MessageType := type_text | type_analysis | type_agent_result.

(** The string literals used as states: a message's [status] is one of
    ['processing' | 'completed' | 'failed'], an entry of [agentStatuses] one
    of ['queued' | 'processing' | 'completed' | 'failed']; equal literals are
    the same value. *)
Inductive Status := queued | processing | completed | failed.

#[global] Instance Sender_eq_dec : EqDecision Sender.
Proof. solve_decision. Defined.
#[global] Instance MessageType_eq_dec : EqDecision MessageType.
Proof. solve_decision. Defined.
#[global] Instance Status_eq_dec : EqDecision Status.
Proof. solve_decision. Defined.

Module Metadata.
Record t := mk {
  agents : option (list string);
  progress : option number;
  data : option JSValue;
  agent : option string;
  summary : option string;
  success : option bool;
  error : option string;
  displayText : option string
}.

(** [{}] *)
Definition empty : t := mk None None None None None None None None.

(** [{ ...md, progress: p }] *)
Definition with_progress (p : number) (md : t) : t :=
  mk (agents md) (Some p) (data md) (agent md) (summary md) (success md)
     (error md) (displayText md).
End Metadata.

Module Message.
Record t := mk {
  id : string;
  sender : Sender;
  text : string;
  timestamp : string;
  type : MessageType;
  status : option Status;
  metadata : option Metadata.t
}.

(** [{ ...m, text: s }] *)
Definition with_text (s : string) (m : t) : t :=
  mk (id m) (sender m) s (timestamp m) (type m) (status m) (metadata m).

(** [{ ...m, metadata: { ...m.metadata, progress: p } }]; spreading an
    absent [metadata] contributes nothing. *)
Definition with_progress (p : number) (m : t) : t :=
  mk (id m) (sender m) (text m) (timestamp m) (type m) (status m)
     (Some (Metadata.with_progress p (default Metadata.empty (metadata m)))).

(** [{ ...m, status: 'completed', metadata: { ...m.metadata, progress: 100 } }] *)
Definition settle (m : t) : t :=
  mk (id m) (sender m) (text m) (timestamp m) (type m) (Some completed)
     (Some (Metadata.with_progress 100%float
              (default Metadata.empty (metadata m)))).

(** [m.metadata?.progress] *)
Definition progress (m : t) : option number :=
  metadata m ≫= Metadata.progress.
End Message.

Record DatasetContext := {
  dataset_id : string;
  filename : string;
  shape : Z * Z;
  columns : list string
}.

(** Modelled from the spec: the types of [services/api] ([OrchestrationPlan]
    and the replies of [createSession], [uploadDataset] and [sendQuery]) are
    not among the sources.  Section 3 and the table of section 6 of the
    specification give their parts: a plan is a reasoning text and an ordered
    list of agent names; a query's reply is the plan and the per-agent
    results (agent name, success flag, payload, optional error). *)
Record OrchestrationPlan := {
  reasoning : string;
  plan_agents : list string
}.

Record AgentResponse := {
  ar_agent : string;
  ar_success : bool;
  ar_data : option JSValue;
  ar_error : option string
}.

(** The types are erased at run time: a reply may lack its plan or its list
    of results, and an entry of that list may be [null].  Reading a property
    of such a value throws, which is what [sendMessage]'s [catch] receives
    as a processing failure. *)
Record QueryResponse := {
  orchestration_plan : option OrchestrationPlan;
  agent_responses : option (list (option AgentResponse))
}.

Record SessionResponse := { session_id : option string }.

Record UploadResponse := {
  up_dataset_id : string;
  up_filename : string;
  up_shape : Z * Z;
  up_columns : list string
}.

Record File := { file_name : string; file_content : string }.

(** What is thrown, or what a promise is rejected with; [message] is what
    [error.message] reads. *)
Record Thrown := { message : option string }.

(** [TypeError] of a property read on [undefined] or [null] (V8's wording). *)
Definition TypeError (what prop : string) : Thrown :=
  {| message := Some ("Cannot read properties of " +:+ what +:+
                      " (reading '" +:+ prop +:+ "')") |}.

(** ** The store state (the data fields of [UIState]) *)

Module UIState.
Record t := mk {
  isSidebarOpen : bool;
  isRightPanelOpen : bool;
  rightPanelWidth : Z;
  isDarkMode : bool;
  sessionId : option string;
  userId : string;
  messages : list Message.t;
  isThinking : bool;
  processingStep : option string;
  activeDataset : option DatasetContext;
  selectedAgentId : option string;
  currentPlan : option OrchestrationPlan;
  agentStatuses : gmap string Status
}.

(** The partial states handed to [set], one setter per field they name. *)
Definition set_isRightPanelOpen (v : bool) (s : t) : t :=
  mk (isSidebarOpen s) v (rightPanelWidth s) (isDarkMode s) (sessionId s)
     (userId s) (messages s) (isThinking s) (processingStep s)
     (activeDataset s) (selectedAgentId s) (currentPlan s) (agentStatuses s).
Definition set_sessionId (v : option string) (s : t) : t :=
  mk (isSidebarOpen s) (isRightPanelOpen s) (rightPanelWidth s)
     (isDarkMode s) v (userId s) (messages s) (isThinking s)
     (processingStep s) (activeDataset s) (selectedAgentId s)
     (currentPlan s) (agentStatuses s).
Definition set_messages (v : list Message.t) (s : t) : t :=
  mk (isSidebarOpen s) (isRightPanelOpen s) (rightPanelWidth s)
     (isDarkMode s) (sessionId s) (userId s) v (isThinking s)
     (processingStep s) (activeDataset s) (selectedAgentId s)
     (currentPlan s) (agentStatuses s).
Definition set_isThinking (v : bool) (s : t) : t :=
  mk (isSidebarOpen s) (isRightPanelOpen s) (rightPanelWidth s)
     (isDarkMode s) (sessionId s) (userId s) (messages s) v
     (processingStep s) (activeDataset s) (selectedAgentId s)
     (currentPlan s) (agentStatuses s).
Definition set_processingStep (v : option string) (s : t) : t :=
  mk (isSidebarOpen s) (isRightPanelOpen s) (rightPanelWidth s)
     (isDarkMode s) (sessionId s) (userId s) (messages s) (isThinking s)
       v (activeDataset s) (selectedAgentId s) (currentPlan s)
     (agentStatuses s).
Definition set_activeDataset (v : option DatasetContext) (s : t) : t :=
  mk (isSidebarOpen s) (isRightPanelOpen s) (rightPanelWidth s)
     (isDarkMode s) (sessionId s) (userId s) (messages s) (isThinking s)
     (processingStep s) v (selectedAgentId s) (currentPlan s)
     (agentStatuses s).
Definition set_selectedAgentId (v : option string) (s : t) : t :=
  mk (isSidebarOpen s) (isRightPanelOpen s) (rightPanelWidth s)
     (isDarkMode s) (sessionId s) (userId s) (messages s) (isThinking s)
     (processingStep s) (activeDataset s) v (currentPlan s)
     (agentStatuses s).
Definition set_currentPlan (v : option OrchestrationPlan) (s : t) : t :=
  mk (isSidebarOpen s) (isRightPanelOpen s) (rightPanelWidth s)
     (isDarkMode s) (sessionId s) (userId s) (messages s) (isThinking s)
     (processingStep s) (activeDataset s) (selectedAgentId s) v
     (agentStatuses s).
Definition set_agentStatuses (v : gmap string Status) (s : t) : t :=
  mk (isSidebarOpen s) (isRightPanelOpen s) (rightPanelWidth s)
     (isDarkMode s) (sessionId s) (userId s) (messages s) (isThinking s)
     (processingStep s) (activeDataset s) (selectedAgentId s)
     (currentPlan s) v.

(** The state the store is created with. *)
Definition initial : t :=
  mk true false 450 false None "demo_user_01" [] false None None None None ∅.
End UIState.

(** ** The world around the store *)

Inductive ApiCall :=
| CreateSession (userId : string)
| UploadDataset (file : File)
| SendQuery (text : string) (sessionId : option string) (userId : string)
            (context_dataset_id : option string).

(** What an invocation does that can be seen from outside, in order: a
    [set] (with the state the subscribers then read), a request to the API, a
    timer waited for, a line on the console. *)
Inductive Event :=
| ESet (s : UIState.t)
| EApi (c : ApiCall)
| ESleep (ms : Z)
| EConsoleError (label : string) (e : Thrown).

Record World := {
  store : UIState.t;
  ticks : nat;            (* clock readings taken so far *)
  log : list Event        (* oldest first *)
}.

(** The answers of the outside: the [n]-th reading of the clock in
    milliseconds, the locale's rendering of a time of day, and the outcome of
    each request (rejected, or resolved with a reply). *)
Record Env := {
  clock : nat -> Z;
  toLocaleTimeString : Z -> string;
  api_createSession : string -> Thrown + SessionResponse;
  api_uploadDataset : File -> Thrown + UploadResponse;
  api_sendQuery :
    string -> option string -> string -> option string -> Thrown + QueryResponse
}.

(** Computations that may throw and that change the world. *)
Definition M (A : Type) : Type := World -> (Thrown + A) * World.

#[global] Instance M_ret : MRet M := λ A a w, (inr a, w).
#[global] Instance M_bind : MBind M := λ A B f m w,
  match m w with
  | (inr a, w') => f a w'
  | (inl e, w') => (inl e, w')
  end.

Definition throw {A} (e : Thrown) : M A := λ w, (inl e, w).

(** [try { body } catch (e) { handler e }] *)
Definition try_catch {A} (body : M A) (handler : Thrown -> M A) : M A := λ w,
  match body w with
  | (inl e, w') => handler e w'
  | r => r
  end.

Definition emit (ev : Event) (w : World) : World :=
  {| store := store w; ticks := ticks w; log := log w ++ [ev] |}.

(** [get()] *)
Definition get : M UIState.t := λ w, (inr (store w), w).

(** [set(state => f state)]: the state is replaced and the subscribers are
    told. *)
Definition set (f : UIState.t -> UIState.t) : M unit := λ w,
  let s := f (store w) in
  (inr tt, {| store := s; ticks := ticks w; log := log w ++ [ESet s] |}).

(** [Date.now()] *)
Definition Date_now (env : Env) : M Z := λ w,
  (inr (clock env (ticks w)),
   {| store := store w; ticks := S (ticks w); log := log w |}).

(** [new Date().toLocaleTimeString([], { hour: '2-digit', minute: '2-digit' })] *)
Definition localeTime (env : Env) : M string :=
  t ← Date_now env; mret (toLocaleTimeString env t).

(** [await] of a request: it is sent, then its outcome is resumed with. *)
Definition await_api {A} (c : ApiCall) (outcome : Thrown + A) : M A := λ w,
  (outcome, emit (EApi c) w).

(** [await new Promise(r => setTimeout(r, ms))] *)
Definition sleep (ms : Z) : M unit := λ w, (inr tt, emit (ESleep ms) w).

(** [console.error(label, e)] *)
Definition console_error (label : string) (e : Thrown) : M unit := λ w,
  (inr tt, emit (EConsoleError label e) w).

(** Reading property [prop] of a part that may be [undefined] / [null]. *)
Definition read {A} (what prop : string) (x : option A) : M A :=
  match x with
  | Some a => mret a
  | None => throw (TypeError what prop)
  end.

(** The states the subscribers have seen, oldest first. *)
Definition states_of (evs : list Event) : list UIState.t :=
  omap (λ ev, match ev with ESet s => Some s | _ => None end) evs.

Definition snapshots (w : World) : list UIState.t := states_of (log w).

(** The requests sent, oldest first. *)
Definition requests_of (evs : list Event) : list ApiCall :=
  omap (λ ev, match ev with EApi c => Some c | _ => None end) evs.

Definition requests (w : World) : list ApiCall := requests_of (log w).

(** ** The actions of the store *)

Section Actions.
Variable env : Env.

Import UIState.

(** [initializeSession] *)
Definition initializeSession : M unit :=
  state ← get;
  let userId := userId state in
  try_catch
    (res ← await_api (CreateSession userId) (api_createSession env userId);
     newSessionId ←
       (if falsy (session_id res)
        then t ← Date_now env; mret ("sess_" +:+ pretty t)
        else mret (or_else (session_id res) ""));
     set (set_sessionId (Some newSessionId)))
    (λ e,
     console_error "Session Init Failed" e;;
     t ← Date_now env;
     set (set_sessionId (Some ("offline_sess_" +:+ pretty t)))).

(** [uploadDataset] *)
Definition uploadDataset (file : File) : M unit :=
  try_catch
    (res ← await_api (UploadDataset file) (api_uploadDataset env file);
     set (set_activeDataset
            (Some {| dataset_id := up_dataset_id res;
                     filename := up_filename res;
                     shape := up_shape res;
                     columns := up_columns res |}));;
     t ← Date_now env;
     timestamp ← localeTime env;
     let sysMsg :=
       Message.mk (pretty t) ai "dataset_uploaded" timestamp type_text None
         (Some (Metadata.mk None None None None None None None
                  (Some ("✅ Ingested **" +:+ up_filename res +:+ "** (" +:+
                         pretty (up_shape res).1 +:+
                         " rows). Ready for analysis.")))) in
     set (λ state,
          set_messages
            (messages state ++
             [Message.with_text
                (or_else (Message.metadata sysMsg ≫= Metadata.displayText) "")
                sysMsg])
            state))
    (λ e, console_error "Upload failed" e).

(** The body of [for (const agentRes of agents) { ... }], with the counter
    [completedCount] it increments. *)
Fixpoint reveal (planMsg_id : string) (totalAgents : Z)
    (agents : list (option AgentResponse)) (completedCount : Z) : M unit :=
  match agents with
  | [] => mret tt
  | agentRes :: rest =>
      agentRes ← read "null" "agent" agentRes;
      set (λ state,
           set_processingStep
             (Some ("Activating " +:+ ar_agent agentRes +:+ "..."))
             (set_agentStatuses
                (<[ar_agent agentRes := processing]> (agentStatuses state))
                state));;
      sleep 800;;
      t ← Date_now env;
      timestamp ← localeTime env;
      let resultMsg :=
        Message.mk (pretty t +:+ "_" +:+ ar_agent agentRes) ai
          (ar_agent agentRes) timestamp type_analysis
          (Some (if ar_success agentRes then completed else failed))
          (Some (Metadata.mk None None (ar_data agentRes)
                   (Some (ar_agent agentRes))
                   (Some "Click to view detailed report")
                   (Some (ar_success agentRes)) (ar_error agentRes) None)) in
      set (λ state,
           set_agentStatuses
             (<[ar_agent agentRes :=
                  if ar_success agentRes then completed else failed]>
                (agentStatuses state))
             (set_selectedAgentId (Some (ar_agent agentRes))
                (set_messages
                   (((λ m,
                      if decide (Message.id m = planMsg_id)
                      then Message.with_progress
                             (Math_round
                                (PrimFloat.mul
                                   (PrimFloat.div (num (completedCount + 1))
                                                  (num totalAgents))
                                   100%float))
                             m
                      else m) <$> messages state)
                    ++ [resultMsg])
                   state)));;
      sleep 1200;;
      reveal planMsg_id totalAgents rest (completedCount + 1)
  end.

(** The [try { ... }] block of [sendMessage], with the constants
    [sessionId], [userId] and [activeDataset] read on entry. *)
Definition sendMessage_try (text : string) (sessionId : option string)
    (userId : string) (activeDataset : option DatasetContext) : M unit :=
  let context := dataset_id <$> activeDataset in
  response ← await_api (SendQuery text sessionId userId context)
               (api_sendQuery env text sessionId userId context);
  (* 1. the reasoning *)
  t1 ← Date_now env;
  plan ← read "undefined" "reasoning" (orchestration_plan response);
  timestamp1 ← localeTime env;
  let reasoningMsg :=
    Message.mk (pretty (t1 + 1)%Z) ai (reasoning plan) timestamp1 type_text
      None None in
  set (λ state, set_messages (messages state ++ [reasoningMsg]) state);;
  (* 2. the plan *)
  t2 ← Date_now env;
  timestamp2 ← localeTime env;
  let planMsg :=
    Message.mk (pretty (t2 + 2)%Z) ai "Agent Execution Strategy" timestamp2
      type_analysis (Some processing)
      (Some (Metadata.mk (Some (plan_agents plan)) (Some 0%float) None None
               None None None None)) in
  set (λ state,
       set_messages (messages state ++ [planMsg])
         (set_currentPlan (Some plan)
            (set_isRightPanelOpen true
               (set_selectedAgentId None state))));;
  (* the staged reveal *)
  agents ← read "undefined" "length" (agent_responses response);
  let totalAgents := Z.of_nat (length agents) in
  reveal (Message.id planMsg) totalAgents agents 0;;
  set (λ state,
       set_isThinking false
         (set_processingStep None
            (set_selectedAgentId None
               (set_messages
                  ((λ m,
                    if decide (Message.id m = Message.id planMsg)
                    then Message.settle m
                    else m) <$> messages state)
                  state)))).

(** Its [catch (error) { ... }] block; [timestamp] is the one taken on
    entry. *)
Definition sendMessage_catch (timestamp : string) (error : Thrown) : M unit :=
  console_error "Interaction failed" error;;
  t ← Date_now env;
  set (λ state,
       set_isThinking false
         (set_processingStep None
            (set_messages
               (messages state ++
                [Message.mk (pretty t) ai
                   ("System Error: " +:+
                    or_else (message error) "Unknown error")
                   timestamp type_text None None])
               state))).

(** [sendMessage] *)
Definition sendMessage (text : string) : M unit :=
  state ← get;
  let sessionId := sessionId state in
  let userId := userId state in
  let activeDataset := activeDataset state in
  (if falsy sessionId then initializeSession else mret tt);;
  timestamp ← localeTime env;
  t ← Date_now env;
  let userMsg :=
    Message.mk (pretty t) user text timestamp type_text None None in
  set (λ state,
       set_messages (messages state ++ [userMsg])
         (set_isThinking true
            (set_processingStep (Some "Orchestrator is analyzing request...")
               state)));;
  try_catch (sendMessage_try text sessionId userId activeDataset)
            (sendMessage_catch timestamp).

(** [resetSession] *)
Definition resetSession : M unit :=
  set (λ state,
       set_messages []
         (set_activeDataset None
            (set_currentPlan None
               (set_agentStatuses ∅
                  (set_isRightPanelOpen false state))))).

(** [handleSubmit] of the input panel, with the component's [text] state it
    leaves behind; [runSimulation] is the store action the panel was given
    (the panel does not wait for it; here it runs to its end before the field
    is cleared). *)
Definition handleSubmit (runSimulation : string -> M unit) (text : string)
    : M string :=
  if decide (trim text = "") then mret text
  else runSimulation text;; mret "".

End Actions.

(** ** Names for what the specification speaks of *)

(** The specification's [round(k/N*100)]: the store's expression
    [Math.round((k / N) * 100)] on numbers. *)
Definition round_pct (k N : Z) : number :=
  Math_round (PrimFloat.mul (PrimFloat.div (num k) (num N)) 100%float).

(** The same with exact rational arithmetic, halves going up. *)
Definition exact_round_pct (k N : Z) : Z := ((200 * k + N) `div` (2 * N))%Z.

(** The message that reveals the result [a] of an agent, whatever its id
    and time stamp. *)
Definition is_result_of (a : AgentResponse) (m : Message.t) : Prop :=
  Message.sender m = ai ∧
  Message.text m = ar_agent a ∧
  Message.type m = type_analysis ∧
  Message.status m = Some (if ar_success a then completed else failed) ∧
  Message.metadata m =
    Some (Metadata.mk None None (ar_data a) (Some (ar_agent a))
            (Some "Click to view detailed report") (Some (ar_success a))
            (ar_error a) None).

(** A reply to a query with all its parts: the plan and the results [rs]. *)
Definition reply (plan : OrchestrationPlan) (rs : list AgentResponse)
    : QueryResponse :=
  {| orchestration_plan := Some plan; agent_responses := Some (Some <$> rs) |}.

(** What processing a query's outcome throws, if it throws: the rejection
    itself, or the [TypeError] of the first part found missing. *)
Definition failure_of (outcome : Thrown + QueryResponse) : option Thrown :=
  match outcome with
  | inl e => Some e
  | inr response =>
      match orchestration_plan response, agent_responses response with
      | None, _ => Some (TypeError "undefined" "reasoning")
      | Some _, None => Some (TypeError "undefined" "length")
      | Some _, Some agents =>
          if forallb (λ a : option AgentResponse, bool_decide (is_Some a)) agents
          then None
          else Some (TypeError "null" "agent")
      end
  end.

(** The progress shown by the message at position [i] of a state. *)
Definition progress_at (i : nat) (s : UIState.t) : option number :=
  UIState.messages s !! i ≫= Message.progress.

(** The progress of the message at position [i], as each state published
    after the first [from] ones showed it. *)
Definition observed_progress (i from : nat) (w : World) : list number :=
  omap (progress_at i) (drop from (snapshots w)).

(** The specification's reading of the progress bar: a state that shows the
    plan (at position [i]) at 100 shows all the [N] results after it. *)
Definition full_only_at_end (i N : nat) (states : list UIState.t) : Prop :=
  ∀ s, s ∈ states →
       progress_at i s = Some 100%float →
       length (UIState.messages s) = i + 1 + N.

(** Each number of the list is at most the next. *)
Definition nondecreasing (l : list number) : bool :=
  forallb (λ p : number * number, num_le p.1 p.2) (zip l (tail l)).

(** What may happen before the user's message is shown: no state with other
    messages than [ms] is published and no query sent. *)
Definition before_query (ms : list Message.t) (ev : Event) : Prop :=
  match ev with
  | ESet s => UIState.messages s = ms
  | EApi (SendQuery _ _ _ _) => False
  | _ => True
  end.

(** Ids made of a clock reading alone have no underscore; those of the
    result messages have one. *)
Definition has_underscore (s : string) : bool :=
  existsb (Ascii.eqb "_"%char) (String.list_ascii_of_string s).

(** ** Environments and states to run the store on *)

Definition fresh : World :=
  {| store := UIState.initial; ticks := 0; log := [] |}.

Definition ok_agent (name : string) : AgentResponse :=
  {| ar_agent := name; ar_success := true;
     ar_data := Some (JObj [("rows", JNum 120%float)]); ar_error := None |}.

(** The scenario of the specification: the backend answers with the agents
    Harvester and Forecaster, both succeeding; the clock advances by a second
    between two readings. *)
Definition demo_plan : OrchestrationPlan :=
  {| reasoning := "Analyzing seasonality";
     plan_agents := ["Harvester"; "Forecaster"] |}.

Definition demo_env : Env :=
  {| clock := λ n, (1700000000000 + 1000 * Z.of_nat n)%Z;
     toLocaleTimeString := λ _, "10:00 AM";
     api_createSession := λ _, inr {| session_id := Some "sess_backend_1" |};
     api_uploadDataset := λ f,
       inr {| up_dataset_id := "ds_1"; up_filename := file_name f;
              up_shape := (120, 4)%Z; up_columns := ["sku"; "qty"] |};
     api_sendQuery := λ _ _ _ _,
       inr (reply demo_plan [ok_agent "Harvester"; ok_agent "Forecaster"]) |}.

(** The backend cannot be reached: every request is rejected at once, within
    the millisecond in which it was sent. *)
Definition network_error : Thrown := {| message := Some "Network Error" |}.

Definition offline_env : Env :=
  {| clock := λ _, 1700000000000%Z;
     toLocaleTimeString := λ _, "10:00 AM";
     api_createSession := λ _, inl network_error;
     api_uploadDataset := λ _, inl network_error;
     api_sendQuery := λ _ _ _ _, inl network_error |}.

(** A backend whose plan runs [n] agents named after their rank. *)
Definition many_agents (n : nat) : list AgentResponse :=
  (λ i, ok_agent ("agent" +:+ pretty i)) <$> seq 1 n.

Definition crowd_env (n : nat) : Env :=
  {| clock := clock demo_env;
     toLocaleTimeString := toLocaleTimeString demo_env;
     api_createSession := api_createSession demo_env;
     api_uploadDataset := api_uploadDataset demo_env;
     api_sendQuery := λ _ _ _ _,
       inr (reply {| reasoning := "All hands";
                     plan_agents := ar_agent <$> many_agents n |}
                  (many_agents n)) |}.

(** A reply that breaks off after its second result. *)
Definition broken_env : Env :=
  {| clock := clock demo_env;
     toLocaleTimeString := toLocaleTimeString demo_env;
     api_createSession := api_createSession demo_env;
     api_uploadDataset := api_uploadDataset demo_env;
     api_sendQuery := λ _ _ _ _,
       inr {| orchestration_plan := Some demo_plan;
              agent_responses :=
                Some [Some (ok_agent "Harvester"); None;
                      Some (ok_agent "Forecaster")] |} |}.

(** ** The steps of the staged reveal, as functions on states *)

Section Reveal.
Variable env : Env.
Variable planMsg_id : string.
Variable totalAgents : Z.

Import UIState.

(** The message list after [progress: p] was written to the messages
    carrying the plan's id. *)
Definition bump (p : number) (ms : list Message.t) : list Message.t :=
  (λ m, if decide (Message.id m = planMsg_id)
        then Message.with_progress p m else m) <$> ms.

(** The state announcing that agent [a] is at work. *)
Definition activate (a : AgentResponse) (s : UIState.t) : UIState.t :=
  set_processingStep (Some ("Activating " +:+ ar_agent a +:+ "..."))
    (set_agentStatuses (<[ar_agent a := processing]> (agentStatuses s)) s).

(** The message revealing [a]'s result, made at clock reading number [n]. *)
Definition resultMsg (n : nat) (a : AgentResponse) : Message.t :=
  Message.mk (pretty (clock env n) +:+ "_" +:+ ar_agent a) ai (ar_agent a)
    (toLocaleTimeString env (clock env (S n))) type_analysis
    (Some (if ar_success a then completed else failed))
    (Some (Metadata.mk None None (ar_data a) (Some (ar_agent a))
             (Some "Click to view detailed report") (Some (ar_success a))
             (ar_error a) None)).

(** The state revealing it, [completedCount] results having been revealed
    before. *)
Definition publish (n : nat) (a : AgentResponse) (completedCount : Z)
    (s : UIState.t) : UIState.t :=
  set_agentStatuses
    (<[ar_agent a := if ar_success a then completed else failed]>
       (agentStatuses s))
    (set_selectedAgentId (Some (ar_agent a))
       (set_messages
          (bump (round_pct (completedCount + 1) totalAgents) (messages s)
           ++ [resultMsg n a])
          s)).

(** The world after one turn of the loop. *)
Definition after_agent (a : AgentResponse) (completedCount : Z) (w : World)
    : World :=
  let s1 := activate a (store w) in
  let s2 := publish (ticks w) a completedCount s1 in
  {| store := s2;
     ticks := S (S (ticks w));
     log := (((log w ++ [ESet s1]) ++ [ESleep 800]) ++ [ESet s2])
            ++ [ESleep 1200] |}.

(** The world after the loop went through the results [rs]. *)
Fixpoint reveal_end (rs : list AgentResponse) (completedCount : Z)
    (w : World) : World :=
  match rs with
  | [] => w
  | a :: rest => reveal_end rest (completedCount + 1)
                   (after_agent a completedCount w)
  end.

(** The states it published on the way, two for each agent. *)
Fixpoint reveal_states (rs : list AgentResponse) (completedCount : Z)
    (w : World) : list UIState.t :=
  match rs with
  | [] => []
  | a :: rest =>
      activate a (store w)
      :: store (after_agent a completedCount w)
      :: reveal_states rest (completedCount + 1)
           (after_agent a completedCount w)
  end.

(** The result messages it appended, the first made at reading number [n]. *)
Fixpoint resultMsgs (n : nat) (rs : list AgentResponse) : list Message.t :=
  match rs with
  | [] => []
  | a :: rest => resultMsg n a :: resultMsgs (S (S n)) rest
  end.

(** What the plan's progress shows over [n] turns of the loop, from the
    [k]-th result on: each agent is announced at the value [before] it and
    revealed at its own. *)
Fixpoint staged (before : number) (k : Z) (n : nat) : list number :=
  match n with
  | O => []
  | S n' =>
      before :: round_pct k totalAgents
      :: staged (round_pct k totalAgents) (k + 1) n'
  end.

End Reveal.

(** The world one clock reading later. *)
Definition tick (w : World) : World :=
  {| store := store w; ticks := S (ticks w); log := log w |}.

(** The world in which [sendMessage] builds its user message: the one it was
    called in, or the one [initializeSession] left. *)
Definition entered (env : Env) (w : World) : World :=
  ((if falsy (UIState.sessionId (store w))
    then initializeSession env else mret tt) w).2.

(** ** The stages of [sendMessage], as functions on worlds *)

Section Stages.
Variable env : Env.

Import UIState.

(** The user's message, made in world [w1]. *)
Definition userMsg (text : string) (w1 : World) : Message.t :=
  Message.mk (pretty (clock env (S (ticks w1)))) user text
    (toLocaleTimeString env (clock env (ticks w1))) type_text None None.

(** The world once the user's message is shown. *)
Definition greeted (text : string) (w : World) : World :=
  let w1 := entered env w in
  let s := set_messages (messages (store w1) ++ [userMsg text w1])
             (set_isThinking true
                (set_processingStep
                   (Some "Orchestrator is analyzing request...") (store w1))) in
  {| store := s; ticks := S (S (ticks w1)); log := log w1 ++ [ESet s] |}.

(** The request [sendMessage] called in [w] sends. *)
Definition query (text : string) (w : World) : ApiCall :=
  SendQuery text (sessionId (store w)) (userId (store w))
    (dataset_id <$> activeDataset (store w)).

(** Its outcome. *)
Definition outcome (text : string) (w : World) : Thrown + QueryResponse :=
  api_sendQuery env text (sessionId (store w)) (userId (store w))
    (dataset_id <$> activeDataset (store w)).

(** The two messages made from a reply received in world [w]. *)
Definition reasoningMsg (plan : OrchestrationPlan) (w : World) : Message.t :=
  Message.mk (pretty (clock env (ticks w) + 1)%Z) ai (reasoning plan)
    (toLocaleTimeString env (clock env (S (ticks w)))) type_text None None.

Definition planMsg (plan : OrchestrationPlan) (w : World) : Message.t :=
  Message.mk (pretty (clock env (S (S (ticks w))) + 2)%Z) ai
    "Agent Execution Strategy"
    (toLocaleTimeString env (clock env (S (S (S (ticks w))))))
    type_analysis (Some processing)
    (Some (Metadata.mk (Some (plan_agents plan)) (Some 0%float) None None None
             None None None)).

(** The world once the reasoning and the plan are shown. *)
Definition planned (plan : OrchestrationPlan) (w : World) : World :=
  let s1 := set_messages (messages (store w) ++ [reasoningMsg plan w])
              (store w) in
  let s2 := set_messages (messages s1 ++ [planMsg plan w])
              (set_currentPlan (Some plan)
                 (set_isRightPanelOpen true (set_selectedAgentId None s1))) in
  {| store := s2; ticks := S (S (S (S (ticks w))));
     log := (log w ++ [ESet s1]) ++ [ESet s2] |}.

(** The message list once the plan is settled. *)
Definition settle_all (planMsg_id : string) (ms : list Message.t)
    : list Message.t :=
  (λ m, if decide (Message.id m = planMsg_id) then Message.settle m else m)
  <$> ms.

(** The world once the query is settled. *)
Definition settled (planMsg_id : string) (w : World) : World :=
  let s := set_isThinking false
             (set_processingStep None
                (set_selectedAgentId None
                   (set_messages (settle_all planMsg_id (messages (store w)))
                      (store w)))) in
  {| store := s; ticks := ticks w; log := log w ++ [ESet s] |}.

(** The message surfacing the failure [e], made in world [w] with the time
    stamp taken on entry. *)
Definition errorMsg (timestamp : string) (e : Thrown) (w : World) : Message.t :=
  Message.mk (pretty (clock env (ticks w))) ai
    ("System Error: " +:+ or_else (message e) "Unknown error")
    timestamp type_text None None.

(** The world once the failure is surfaced. *)
Definition failed_world (timestamp : string) (e : Thrown) (w : World) : World :=
  let s := set_isThinking false
             (set_processingStep None
                (set_messages (messages (store w) ++ [errorMsg timestamp e w])
                   (store w))) in
  {| store := s; ticks := S (ticks w);
     log := (log w ++ [EConsoleError "Interaction failed" e]) ++ [ESet s] |}.

End Stages.

(** ** The layout actions of the store *)

Section Layout.
Import UIState.

Definition set_isSidebarOpen (v : bool) (s : UIState.t) : UIState.t :=
  UIState.mk v (isRightPanelOpen s) (rightPanelWidth s) (isDarkMode s)
    (sessionId s) (userId s) (messages s) (isThinking s) (processingStep s)
    (activeDataset s) (selectedAgentId s) (currentPlan s) (agentStatuses s).
Definition set_rightPanelWidth (v : Z) (s : UIState.t) : UIState.t :=
  UIState.mk (isSidebarOpen s) (isRightPanelOpen s) v (isDarkMode s)
    (sessionId s) (userId s) (messages s) (isThinking s) (processingStep s)
    (activeDataset s) (selectedAgentId s) (currentPlan s) (agentStatuses s).
Definition set_isDarkMode (v : bool) (s : UIState.t) : UIState.t :=
  UIState.mk (isSidebarOpen s) (isRightPanelOpen s) (rightPanelWidth s) v
    (sessionId s) (userId s) (messages s) (isThinking s) (processingStep s)
    (activeDataset s) (selectedAgentId s) (currentPlan s) (agentStatuses s).

(** [toggleSidebar] *)
Definition toggleSidebar : M unit :=
  set (λ state, set_isSidebarOpen (negb (isSidebarOpen state)) state).

(** [toggleRightPanel] *)
Definition toggleRightPanel : M unit :=
  set (λ state, set_isRightPanelOpen (negb (isRightPanelOpen state)) state).

(** [setRightPanelOpen] *)
Definition setRightPanelOpen (isOpen : bool) : M unit :=
  set (set_isRightPanelOpen isOpen).

(** [setRightPanelWidth] *)
Definition setRightPanelWidth (width : Z) : M unit :=
  set (set_rightPanelWidth width).

(** [setSelectedAgent]: [{ selectedAgentId: id, isRightPanelOpen: !!id }] *)
Definition setSelectedAgent (id : option string) : M unit :=
  set (λ state,
       set_isRightPanelOpen (negb (falsy id)) (set_selectedAgentId id state)).

(** [if (mode) classList.add('dark'); else classList.remove('dark');] on the
    class list of the document's root, a set of tokens. *)
Definition applyTheme (mode : bool) (classList : gset string) : gset string :=
  if mode then {["dark"]} ∪ classList else classList ∖ {["dark"]}.

(** [toggleTheme], with the class list of the document's root it works on
    and leaves. *)
Definition toggleTheme (classList : gset string) : M (gset string) :=
  state ← get;
  let newMode := negb (isDarkMode state) in
  let classList := applyTheme newMode classList in
  set (set_isDarkMode newMode);;
  mret classList.

End Layout.

(** ** The message cards ([MessageBubble]) and the chat ([ChatInterface]) *)

Section View.
Import UIState.

(** [!!v] on a value of type [any]. *)
Definition truthy (v : JSValue) : bool :=
  match v with
  | JNull => false
  | JBool b => b
  | JNum x => negb (PrimFloat.eqb x 0%float || negb (PrimFloat.eqb x x))
  | JStr s => negb (String.eqb s "")
  | JArr _ | JObj _ => true
  end.

(** [!!message.metadata?.agents] (an array, even empty, is truthy) *)
Definition isPlan (message : Message.t) : bool :=
  match Message.metadata message ≫= Metadata.agents with
  | Some _ => true
  | None => false
  end.

(** [!!message.metadata?.data] *)
Definition isResult (message : Message.t) : bool :=
  match Message.metadata message ≫= Metadata.data with
  | Some v => truthy v
  | None => false
  end.

(** [message.type === 'analysis' || message.type === 'agent_result'] *)
Definition isArtifact (message : Message.t) : bool :=
  match Message.type message with
  | type_analysis | type_agent_result => true
  | type_text => false
  end.

(** The heading of an artifact card. *)
Definition cardHeading (message : Message.t) : string :=
  if isPlan message then "Orchestrator Plan"
  else or_else (Message.metadata message ≫= Metadata.agent) "Agent Artifact".

(** [x || null] on an optional string. *)
Definition or_null (x : option string) : option string :=
  if falsy x then None else x.

(** The [onClick] of a message's card; a text bubble has none. *)
Definition cardClick (message : Message.t) : M unit :=
  if isArtifact message then
    if isResult message then
      setSelectedAgent
        (or_null (Message.metadata message ≫= Metadata.agent));;
      setRightPanelOpen true
    else if isPlan message then
      setSelectedAgent None;;
      setRightPanelOpen true
    else mret tt
  else mret tt.

(** [messages.filter(msg => msg.type === 'analysis')], the nodes of the
    timeline. *)
Definition analysisMessages (messages : list Message.t) : list Message.t :=
  filter (λ msg, Message.type msg = type_analysis) messages.

(** [messages.length === 0]: the chat shows its greeting. *)
Definition zeroState (s : UIState.t) : bool :=
  bool_decide (length (messages s) = 0).

End View.

(** ** More names *)

(** What of a message never changes once it is in the list. *)
Definition core (m : Message.t)
    : string * Sender * string * string * MessageType :=
  (Message.id m, Message.sender m, Message.text m, Message.timestamp m,
   Message.type m).

(** What of a message's metadata no action rewrites: all of it but the
    progress. *)
Definition payload (m : Message.t)
    : option (list string) * option JSValue * option string * option string
      * option bool * option string * option string :=
  let md := default Metadata.empty (Message.metadata m) in
  (Metadata.agents md, Metadata.data md, Metadata.agent md,
   Metadata.summary md, Metadata.success md, Metadata.error md,
   Metadata.displayText md).

(** The id of the plan's message that [sendMessage], called with [text] in
    world [w], makes: none if the request is rejected or the reply has no
    plan. *)
Definition planId (env : Env) (text : string) (w : World) : option string :=
  match outcome env text w with
  | inr response =>
      (λ plan, Message.id
                 (planMsg env plan
                    (emit (EApi (query text w)) (greeted env text w))))
      <$> orchestration_plan response
  | inl _ => None
  end.

(** The status a result gives its agent. *)
Definition result_status (a : AgentResponse) : Status :=
  if ar_success a then completed else failed.

(** The timers waited for, oldest first. *)
Definition timers_of (evs : list Event) : list Z :=
  omap (λ ev, match ev with ESleep ms => Some ms | _ => None end) evs.

(** The fields of the state that a query never writes. *)
Definition outside_query (s : UIState.t)
    : bool * Z * bool * option string * string * option DatasetContext :=
  (UIState.isSidebarOpen s, UIState.rightPanelWidth s, UIState.isDarkMode s,
   UIState.sessionId s, UIState.userId s, UIState.activeDataset s).

(** The result of an agent that failed and hands back no payload. *)
Definition failed_agent (name : string) : AgentResponse :=
  {| ar_agent := name; ar_success := false; ar_data := None;
     ar_error := Some "timeout" |}.

(** ** The input panel as the store serves it, and the titles of the timeline *)

(** Calling what is [undefined]: [TypeError: <name> is not a function]. *)
Definition not_a_function (name : string) : Thrown :=
  {| message := Some (name +:+ " is not a function") |}.

(** What the store holds under a name: a value of the state, a function of
    one string, or a function of other parameters. *)
Inductive Member :=
| value
| text_action (run : string → M unit)
| other_action.

(** The object [useUIStore()] hands to a component: the members the store is
    created with, in the order of [create<UIState>((set, get) => ({ ... }))];
    no [set] of the store adds a name. *)
Definition useUIStore (env : Env) : list (string * Member) :=
  [("isSidebarOpen", value); ("isRightPanelOpen", value);
   ("rightPanelWidth", value); ("isDarkMode", value);
   ("sessionId", value); ("userId", value); ("messages", value);
   ("isThinking", value); ("processingStep", value);
   ("activeDataset", value); ("selectedAgentId", value);
   ("currentPlan", value); ("agentStatuses", value);
   ("toggleSidebar", other_action); ("toggleRightPanel", other_action);
   ("setRightPanelOpen", other_action); ("setRightPanelWidth", other_action);
   ("setSelectedAgent", text_action (λ id, setSelectedAgent (Some id)));
   ("toggleTheme", other_action);
   ("initializeSession", other_action); ("uploadDataset", other_action);
   ("sendMessage", text_action (sendMessage env));
   ("resetSession", other_action)].

(** [obj[name]]: [None] is [undefined]. *)
Fixpoint member_of (name : string) (members : list (string * Member))
    : option Member :=
  match members with
  | [] => None
  | (k, v) :: rest => if String.eqb k name then Some v else member_of name rest
  end.

(** The [handleSubmit] of a panel that takes the action it calls from the
    store by destructuring, [const { <name> } = useUIStore()]; the input
    panel does so with the name [runSimulation].  Calling what is
    [undefined], or a value of the state, throws.  [None]: the member is a
    function of other parameters than the one string of the call. *)
Definition InputPanel_handleSubmit (env : Env) (name : string) (text : string)
    : option (M string) :=
  match member_of name (useUIStore env) with
  | None | Some value =>
      Some (handleSubmit (λ _, throw (not_a_function name)) text)
  | Some (text_action run) => Some (handleSubmit run text)
  | Some other_action => None
  end.

(** The panel's [text] state after [handleSubmit] ran from [text]: what
    [setText] was given, or [text] as it was if the handler threw before. *)
Definition textField (text : string) (r : (Thrown + string) * World) : string :=
  match r.1 with
  | inr t => t
  | inl _ => text
  end.

(** The properties of a message that hold a string, by name ([metadata]
    holds an object). *)
Definition string_props (msg : Message.t) : list (string * string) :=
  [("id", Message.id msg);
   ("sender", match Message.sender msg with user => "user" | ai => "ai" end);
   ("text", Message.text msg);
   ("timestamp", Message.timestamp msg);
   ("type", match Message.type msg with
            | type_text => "text"
            | type_analysis => "analysis"
            | type_agent_result => "agent_result"
            end)]
  ++ match Message.status msg with
     | Some queued => [("status", "queued")]
     | Some processing => [("status", "processing")]
     | Some completed => [("status", "completed")]
     | Some failed => [("status", "failed")]
     | None => []
     end.

(** [obj[name]] on such a list of properties. *)
Fixpoint prop_of (name : string) (props : list (string * string))
    : option string :=
  match props with
  | [] => None
  | (k, v) :: rest => if String.eqb k name then Some v else prop_of name rest
  end.

(** What [getAnalysisTitle] reads of its argument. *)
Record Titled := {
  title : option string;
  content : option string
}.

(** A message of the store passed where [{ title?, content? }] is read. *)
Definition titled_of (msg : Message.t) : Titled :=
  {| title := prop_of "title" (string_props msg);
     content := prop_of "content" (string_props msg) |}.

Section Titles.
Variable toLowerCase : string → string.

(** [getAnalysisTitle] of the chat. *)
Definition getAnalysisTitle (msg : Titled) (idx : nat) : string :=
  let fallback := "Analysis " +:+ pretty (Z.of_nat idx + 1)%Z in
  if negb (falsy (title msg)) then or_else (title msg) ""
  else if negb (falsy (content msg)) then
    let content := toLowerCase (or_else (content msg) "") in
    if includes content "forecast" then "Demand Forecast Analysis"
    else if includes content "inventory" then "Inventory Analysis"
    else if includes content "supplier" then "Supplier Analysis"
    else if includes content "shipment" then "Shipment Analysis"
    else if includes content "sales" then "Sales Analysis"
    else if includes content "cost" then "Cost Analysis"
    else fallback
  else fallback.

End Titles.

(** ** More states and environments to run the store on *)

(** A store that has its session. *)
Definition resumed : World :=
  {| store := UIState.set_sessionId (Some "sess_backend_1") UIState.initial;
     ticks := 0; log := [] |}.

(** A backend one of whose two agents fails and hands back no payload. *)
Definition mixed_env : Env :=
  {| clock := clock demo_env;
     toLocaleTimeString := toLocaleTimeString demo_env;
     api_createSession := api_createSession demo_env;
     api_uploadDataset := api_uploadDataset demo_env;
     api_sendQuery := λ _ _ _ _,
       inr (reply demo_plan [ok_agent "Harvester"; failed_agent "Forecaster"]) |}.

(** The file of the specification's upload scenario. *)
Definition data_csv : File := {| file_name := "data.csv"; file_content := "" |}.

(** ** Numbers as reals

    What the proofs about the progress bar say of the numbers: a positive
    normal number is [m * 2^e] with a mantissa [m] of 53 bits, and the
    operations round the real result to the nearest such number. *)

(** [2^e] and the number [m * 2^e]. *)
Definition bpow (e : Z) : R := powerRZ 2 e.
Definition F (m e : Z) : R := (IZR m * bpow e)%R.

(** Where a real [y] lies between the integers [m] and [m + 1]. *)
Definition locR (y : R) (m : Z) (l : location) : Prop :=
  match l with
  | loc_Exact => y = IZR m
  | loc_Inexact Lt => (IZR m < y < IZR m + / 2)%R
  | loc_Inexact Eq => y = (IZR m + / 2)%R
  | loc_Inexact Gt => (IZR m + / 2 < y < IZR m + 1)%R
  end.

(** [m] is what [y], lying between [2^52 - 1/4] and [2^53], is rounded to. *)
Definition near (y : R) (m : Z) : Prop :=
  (2 ^ 52 <= m < 2 ^ 53)%Z ∧
  (IZR m - / 2 <= y <= IZR m + / 2)%R ∧
  (m = (2 ^ 52)%Z → (IZR m - / 4 <= y)%R).

(** What a record of [shr] says of the real it stands for. *)
Definition locS (y : R) (mrs : shr_record) : Prop :=
  (0 <= shr_m mrs)%Z ∧ locR y (shr_m mrs) (loc_of_shr_record mrs).

(** The number [x] is positive and normal, with mantissa [m] and exponent
    [e]. *)
Definition posnum (x : float) (m : positive) (e : Z) : Prop :=
  Prim2SF x = S754_finite false m e ∧ (2 ^ 52 <= Zpos m < 2 ^ 53)%Z.

(** [floor (x + 1/2)] of a positive number [x] that is no integer, as
    [Math_round] computes it. *)
Definition rounded (x : number) : Z :=
  match Prim2SF x with
  | S754_finite false m e => Z.shiftr (Zpos m + Z.shiftl 1 (- e - 1)) (- e)
  | _ => 0
  end.

(** The number [Math_round] makes of that integer. *)
Definition whole (n : Z) : number := if (n =? 0)%Z then 0%float else num n.

(** The integer [Math.round((k / N) * 100)] stands for. *)
Definition round_pct_Z (k N : Z) : Z :=
  rounded (PrimFloat.mul (PrimFloat.div (num k) (num N)) 100%float).

(** * Proofs

    The loop and the stages of [sendMessage] are first shown to run as the
    functions on worlds above say; each property is then read off those. *)

Import UIState.

(** *** Decimal numerals carry no underscore *)

Lemma has_underscore_cons (c : ascii) (s : string) :
  has_underscore (String c s) = Ascii.eqb "_" c || has_underscore s.
Proof. done. Qed.

Lemma has_underscore_app (s t : string) :
  has_underscore (s +:+ t) = has_underscore s || has_underscore t.
Proof.
  induction s as [|c s IH]; [done|].
  change (String c s +:+ t) with (String c (s +:+ t)).
  by rewrite !has_underscore_cons, IH, orb_assoc.
Qed.

Lemma pretty_N_char_plain (x : N) : Ascii.eqb "_" (pretty_N_char x) = false.
Proof. unfold pretty_N_char. by repeat case_match. Qed.

Lemma pretty_N_go_plain (x : N) (s : string) :
  has_underscore s = false → has_underscore (pretty_N_go x s) = false.
Proof.
  revert s. induction (N.lt_wf_0 x) as [x _ IH]; intros s Hs.
  destruct (decide (x = 0)%N) as [->|Hx].
  - by rewrite pretty_N_go_0.
  - rewrite pretty_N_go_step by lia. apply IH.
    + apply N.div_lt; lia.
    + by rewrite has_underscore_cons, pretty_N_char_plain.
Qed.

Lemma pretty_N_plain (x : N) : has_underscore (pretty x) = false.
Proof.
  unfold pretty, pretty_N. case_decide; [done|]. by apply pretty_N_go_plain.
Qed.

Lemma pretty_Z_plain (z : Z) : has_underscore (pretty z) = false.
Proof.
  destruct z as [|p|p]; [done|apply pretty_N_plain|].
  unfold pretty, pretty_Z. rewrite has_underscore_app.
  change (pretty p) with (pretty (Npos p)). by rewrite pretty_N_plain.
Qed.

Lemma resultMsg_id_underscore env n a :
  has_underscore (Message.id (resultMsg env n a)) = true.
Proof.
  simpl. rewrite !has_underscore_app. by rewrite orb_true_r.
Qed.

Lemma resultMsg_id_ne env n a pid :
  has_underscore pid = false → Message.id (resultMsg env n a) ≠ pid.
Proof. intros Hp E. rewrite <- E, resultMsg_id_underscore in Hp. done. Qed.

(** *** Messages, lists and logs *)

Lemma with_progress_twice (p q : number) (m : Message.t) :
  Message.with_progress q (Message.with_progress p m) = Message.with_progress q m.
Proof. by destruct m as [? ? ? ? ? ? [[]|]]. Qed.

Lemma settle_with_progress (p : number) (m : Message.t) :
  Message.settle (Message.with_progress p m) = Message.settle m.
Proof. by destruct m as [? ? ? ? ? ? [[]|]]. Qed.

Lemma last_snoc2 {A} (l : list A) (x y : A) : last (l ++ [x; y]) = Some y.
Proof.
  change (l ++ [x; y]) with (l ++ [x] ++ [y]). by rewrite app_assoc, last_snoc.
Qed.

Lemma omap_cons_Some {A B} (f : A → option B) (x : A) (y : B) (l : list A) :
  f x = Some y → omap f (x :: l) = y :: omap f l.
Proof. intros H. simpl. by rewrite H. Qed.

Lemma omap_cons_None {A B} (f : A → option B) (x : A) (l : list A) :
  f x = None → omap f (x :: l) = omap f l.
Proof. intros H. simpl. by rewrite H. Qed.

Lemma states_of_app (l1 l2 : list Event) :
  states_of (l1 ++ l2) = states_of l1 ++ states_of l2.
Proof. apply omap_app. Qed.

Lemma requests_of_app (l1 l2 : list Event) :
  requests_of (l1 ++ l2) = requests_of l1 ++ requests_of l2.
Proof. apply omap_app. Qed.

(** *** The loop *)

Section RevealFacts.
Context (env : Env) (pid : string) (N : Z).

Lemma reveal_present (rs : list AgentResponse) (c : Z) (w : World) :
  reveal env pid N (Some <$> rs) c w = (inr tt, reveal_end env pid N rs c w).
Proof.
  revert c w. induction rs as [|a rs IH]; intros c w; [done|].
  simpl. rewrite <- IH. reflexivity.
Qed.

Lemma reveal_null (rs : list AgentResponse) (rest : list (option AgentResponse))
    (c : Z) (w : World) :
  reveal env pid N ((Some <$> rs) ++ None :: rest) c w
  = (inl (TypeError "null" "agent"), reveal_end env pid N rs c w).
Proof.
  revert c w. induction rs as [|a rs IH]; intros c w; [done|].
  simpl. rewrite <- IH. reflexivity.
Qed.

Lemma agents_split (agents : list (option AgentResponse)) :
  (∃ rs, agents = Some <$> rs) ∨
  (∃ rs rest, agents = (Some <$> rs) ++ None :: rest).
Proof.
  induction agents as [|[a|] agents [[rs ->]|(rs & rest & ->)]].
  - left. by exists [].
  - left. by exists (a :: rs).
  - right. by exists (a :: rs), rest.
  - right. by exists [], (Some <$> rs).
  - right. by exists [], ((Some <$> rs) ++ None :: rest).
Qed.

Lemma snapshots_emit (ev : Event) (w : World) :
  snapshots (emit ev w) = snapshots w ++ states_of [ev].
Proof. apply states_of_app. Qed.

Lemma snapshots_after_agent (a : AgentResponse) (c : Z) (w : World) :
  snapshots (after_agent env pid N a c w)
  = snapshots w ++ [activate a (store w); store (after_agent env pid N a c w)].
Proof.
  unfold snapshots, after_agent; simpl.
  rewrite !states_of_app; simpl. by rewrite !app_nil_r, <- app_assoc.
Qed.

Lemma snapshots_reveal_end (rs : list AgentResponse) (c : Z) (w : World) :
  snapshots (reveal_end env pid N rs c w)
  = snapshots w ++ reveal_states env pid N rs c w.
Proof.
  revert c w. induction rs as [|a rs IH]; intros c w; simpl.
  - by rewrite app_nil_r.
  - by rewrite IH, snapshots_after_agent, <- app_assoc.
Qed.

Lemma requests_reveal_end (rs : list AgentResponse) (c : Z) (w : World) :
  requests (reveal_end env pid N rs c w) = requests w.
Proof.
  revert c w. induction rs as [|a rs IH]; intros c w; simpl; [done|].
  rewrite IH. unfold requests, after_agent; simpl.
  rewrite !requests_of_app; simpl. by rewrite !app_nil_r.
Qed.

Lemma ticks_reveal_end (rs : list AgentResponse) (c : Z) (w : World) :
  ticks (reveal_end env pid N rs c w) = ticks w + 2 * length rs.
Proof.
  revert c w. induction rs as [|a rs IH]; intros c w; simpl; [lia|].
  rewrite IH. simpl. lia.
Qed.

Lemma length_reveal_states (rs : list AgentResponse) (c : Z) (w : World) :
  length (reveal_states env pid N rs c w) = 2 * length rs.
Proof.
  revert c w. induction rs as [|a rs IH]; intros c w; simpl; [done|].
  rewrite IH. lia.
Qed.

Lemma length_resultMsgs (n : nat) (rs : list AgentResponse) :
  length (resultMsgs env n rs) = length rs.
Proof. revert n. induction rs as [|a rs IH]; intros n; simpl; [done|]. by rewrite IH. Qed.

Lemma resultMsgs_are_results (n : nat) (rs : list AgentResponse) :
  Forall2 is_result_of rs (resultMsgs env n rs).
Proof.
  revert n. induction rs as [|a rs IH]; intros n; simpl; constructor; [|done].
  by repeat split.
Qed.

Lemma last_snapshot_reveal_end (rs : list AgentResponse) (c : Z) (w : World) :
  last (snapshots w) = Some (store w) →
  last (snapshots (reveal_end env pid N rs c w))
  = Some (store (reveal_end env pid N rs c w)).
Proof.
  revert c w. induction rs as [|a rs IH]; intros c w Hw; simpl; [done|].
  apply IH. rewrite snapshots_after_agent.
  apply last_snoc2.
Qed.

(** Progress written to other messages leaves a result message alone. *)
Lemma bump_resultMsgs (p : number) (n : nat) (rs : list AgentResponse) :
  has_underscore pid = false →
  bump pid p (resultMsgs env n rs) = resultMsgs env n rs.
Proof.
  intros Hp. revert n. induction rs as [|a rs IH]; intros n; [done|].
  unfold bump in *. simpl. rewrite IH. f_equal.
  by rewrite decide_False by by apply resultMsg_id_ne.
Qed.

Lemma bump_app (p : number) (l1 l2 : list Message.t) :
  bump pid p (l1 ++ l2) = bump pid p l1 ++ bump pid p l2.
Proof. apply fmap_app. Qed.

Lemma bump_twice (p q : number) (ms : list Message.t) :
  bump pid q (bump pid p ms) = bump pid q ms.
Proof.
  unfold bump. rewrite <- list_fmap_compose. apply list_fmap_ext.
  intros _ m _. simpl. destruct (decide (Message.id m = pid)) as [E|E].
  - rewrite decide_True by done. apply with_progress_twice.
  - by rewrite decide_False.
Qed.

(** The messages after the loop: the ones before it, with the progress of
    the last turn written to the plan, then the results in their order. *)
Lemma messages_reveal_end (rs : list AgentResponse) (c : Z) (w : World) :
  has_underscore pid = false →
  messages (store (reveal_end env pid N rs c w))
  = (if rs is [] then messages (store w)
     else bump pid (round_pct (c + Z.of_nat (length rs)) N)
            (messages (store w)))
    ++ resultMsgs env (ticks w) rs.
Proof.
  intros Hp. revert c w. induction rs as [|a rs IH]; intros c w.
  - simpl. by rewrite app_nil_r.
  - cbn [reveal_end]. rewrite IH. cbn [length resultMsgs].
    replace (c + 1 + Z.of_nat (length rs))%Z
      with (c + Z.of_nat (S (length rs)))%Z by lia.
    destruct rs as [|b rs]; cbn [after_agent store ticks publish set_agentStatuses set_selectedAgentId set_messages messages activate set_processingStep].
    + simpl. by rewrite <- app_assoc.
    + rewrite bump_app, bump_twice.
      change [resultMsg env (ticks w) a] with (resultMsgs env (ticks w) [a]).
      rewrite bump_resultMsgs by done. by rewrite <- app_assoc.
Qed.

(** The plan's message keeps its place and its id through the loop, and the
    states published show its progress stage by stage. *)
Lemma plan_through_after_agent (i : nat) (m : Message.t) (a : AgentResponse)
    (c : Z) (w : World) :
  messages (store w) !! i = Some m → Message.id m = pid →
  messages (store (after_agent env pid N a c w)) !! i
  = Some (Message.with_progress (round_pct (c + 1) N) m).
Proof.
  intros Hi Hm. simpl. rewrite lookup_app_l.
  - unfold bump. rewrite list_lookup_fmap, Hi. simpl.
    by rewrite decide_True.
  - unfold bump. rewrite length_fmap. by eapply lookup_lt_Some.
Qed.

Lemma observed_reveal_states (i : nat) (m : Message.t) (p0 : number)
    (rs : list AgentResponse) (c : Z) (w : World) :
  messages (store w) !! i = Some m → Message.id m = pid →
  Message.progress m = Some p0 →
  omap (λ s, messages s !! i ≫= Message.progress)
       (reveal_states env pid N rs c w)
  = staged N p0 (c + 1) (length rs).
Proof.
  revert m p0 c w. induction rs as [|a rs IH]; intros m p0 c w Hi Hm Hp; [done|].
  cbn [reveal_states staged length].
  pose proof (plan_through_after_agent i m a c w Hi Hm) as Hi'.
  rewrite (omap_cons_Some _ _ p0), (omap_cons_Some _ _ (round_pct (c + 1) N)).
  - do 2 f_equal. eapply IH; [exact Hi'|done|].
    by destruct m as [? ? ? ? ? ? [[]|]].
  - rewrite Hi'. by destruct m as [? ? ? ? ? ? [[]|]].
  - change (messages (activate a (store w))) with (messages (store w)).
    by rewrite Hi.
Qed.

(** The state published for the [k]-th result ends with its message and
    gives its agent the same status. *)
Lemma revealed_state (k : nat) (a : AgentResponse) (rs : list AgentResponse)
    (c : Z) (w : World) :
  rs !! k = Some a →
  ∃ s, reveal_states env pid N rs c w !! (2 * k + 1) = Some s ∧
       last (messages s) = Some (resultMsg env (ticks w + 2 * k) a) ∧
       agentStatuses s !! ar_agent a
       = Some (if ar_success a then completed else failed).
Proof.
  revert k c w. induction rs as [|b rs IH]; intros k c w Hk; [done|].
  destruct k as [|k].
  - injection Hk as ->. eexists. split; [reflexivity|]. split.
    + simpl. rewrite last_snoc. do 2 f_equal. lia.
    + simpl. apply lookup_insert_eq.
  - destruct (IH k (c + 1)%Z (after_agent env pid N b c w) Hk)
      as (s & Hs & Hlast & Hst).
    exists s. split; [|split; [|done]].
    + replace (2 * S k + 1) with (S (S (2 * k + 1))) by lia. exact Hs.
    + rewrite Hlast. do 2 f_equal. simpl. lia.
Qed.
End RevealFacts.

(** *** Entering [sendMessage] *)

Ltac run_log :=
  unfold set; simpl; rewrite <- ?app_assoc; simpl; reflexivity.

Section StageFacts.
Context (env : Env).

Lemma set_sessionId_same (s : UIState.t) : set_sessionId (sessionId s) s = s.
Proof. by destruct s. Qed.

Lemma initializeSession_run (w : World) :
  ∃ sid evs k,
    initializeSession env w
    = (inr tt, {| store := set_sessionId (Some sid) (store w);
                  ticks := k + ticks w;
                  log := (log w ++ EApi (CreateSession (userId (store w))) :: evs)
                         ++ [ESet (set_sessionId (Some sid) (store w))] |})
    ∧ falsy (Some sid) = false
    ∧ Forall (λ ev, ∃ e, ev = EConsoleError "Session Init Failed" e) evs.
Proof.
  unfold initializeSession, try_catch, await_api, mbind, M_bind, get. simpl.
  destruct (api_createSession env (userId (store w))) as [e|[[[|c sid]|]]]; simpl.
  - eexists _, [_], 1. split; [run_log|]. split; [done|].
    repeat constructor. by eexists.
  - eexists _, [], 1. split; [run_log|done].
  - eexists _, [], 0. split; [run_log|done].
  - eexists _, [], 1. split; [run_log|done].
Qed.

Lemma entered_run (w : World) :
  (if falsy (sessionId (store w)) then initializeSession env else mret tt) w
  = (inr tt, entered env w).
Proof.
  unfold entered. destruct (falsy _); [|done].
  by destruct (initializeSession_run w) as (? & ? & ? & -> & _).
Qed.

(** Entering changes nothing of the state but, perhaps, the session id,
    and publishes no state with other messages. *)
Lemma entered_store (w : World) :
  ∃ sid, store (entered env w) = set_sessionId sid (store w).
Proof.
  unfold entered. destruct (falsy _).
  - destruct (initializeSession_run w) as (sid & ? & ? & -> & _). by eexists.
  - exists (sessionId (store w)). by rewrite set_sessionId_same.
Qed.

Lemma entered_messages (w : World) :
  messages (store (entered env w)) = messages (store w).
Proof. by destruct (entered_store w) as [sid ->]. Qed.

Lemma entered_snapshots (w : World) :
  ∃ l, snapshots (entered env w) = snapshots w ++ l ∧
       Forall (λ s, messages s = messages (store w)) l.
Proof.
  unfold entered. destruct (falsy _).
  - destruct (initializeSession_run w) as (sid & evs & k & -> & _ & Hevs).
    assert (states_of evs = []) as Hn.
    { induction Hevs as [|ev evs [e ->] _ IH]; [done|]. by simpl. }
    exists [set_sessionId (Some sid) (store w)]. split; [|by repeat constructor].
    unfold snapshots; simpl. rewrite !states_of_app.
    change (states_of (?a :: evs)) with (states_of evs).
    by rewrite Hn, app_nil_r.
  - exists []. by rewrite app_nil_r.
Qed.

Lemma entered_log (w : World) :
  ∃ evs, log (entered env w) = log w ++ evs ∧
         Forall (λ ev, ∀ t sid uid ctx, ev ≠ EApi (SendQuery t sid uid ctx)) evs.
Proof.
  unfold entered. destruct (falsy _).
  - destruct (initializeSession_run w) as (sid & evs & k & -> & _ & Hevs).
    eexists (_ :: evs ++ [_]). simpl. split.
    { by rewrite <- !app_assoc. }
    constructor; [done|]. apply Forall_app. split; [|by repeat constructor].
    eapply Forall_impl; [exact Hevs|]. by intros ev [e ->].
  - exists []. by rewrite app_nil_r.
Qed.

Lemma entered_session (w : World) :
  falsy (sessionId (store (entered env w))) = false.
Proof.
  unfold entered. destruct (falsy (sessionId (store w))) eqn:E; [|done].
  by destruct (initializeSession_run w) as (sid & ? & ? & -> & ? & _).
Qed.

Lemma sendMessage_stages (text : string) (w : World) :
  sendMessage env text w
  = try_catch
      (sendMessage_try env text (sessionId (store w)) (userId (store w))
         (activeDataset (store w)))
      (sendMessage_catch env
         (toLocaleTimeString env (clock env (ticks (entered env w)))))
      (greeted env text w).
Proof.
  unfold sendMessage, mbind, M_bind, get at 1. cbn beta iota.
  by rewrite entered_run.
Qed.

Lemma sendMessage_catch_run (timestamp : string) (e : Thrown) (w : World) :
  sendMessage_catch env timestamp e w = (inr tt, failed_world env timestamp e w).
Proof. done. Qed.

(** *** The ways through the [try] block *)

Lemma sendMessage_try_rejected text sid uid ds (w : World) (e : Thrown) :
  api_sendQuery env text sid uid (dataset_id <$> ds) = inl e →
  sendMessage_try env text sid uid ds w
  = (inl e, emit (EApi (SendQuery text sid uid (dataset_id <$> ds))) w).
Proof.
  intros H. unfold sendMessage_try, await_api, mbind, M_bind. by rewrite H.
Qed.

Lemma sendMessage_try_no_plan text sid uid ds (w : World) (r : QueryResponse) :
  api_sendQuery env text sid uid (dataset_id <$> ds) = inr r →
  orchestration_plan r = None →
  sendMessage_try env text sid uid ds w
  = (inl (TypeError "undefined" "reasoning"),
     tick (emit (EApi (SendQuery text sid uid (dataset_id <$> ds))) w)).
Proof.
  intros H Hp. unfold sendMessage_try, await_api, mbind, M_bind.
  rewrite H. simpl. by rewrite Hp.
Qed.

Lemma sendMessage_try_no_results text sid uid ds (w : World) r plan :
  api_sendQuery env text sid uid (dataset_id <$> ds) = inr r →
  orchestration_plan r = Some plan →
  agent_responses r = None →
  sendMessage_try env text sid uid ds w
  = (inl (TypeError "undefined" "length"),
     planned env plan
       (emit (EApi (SendQuery text sid uid (dataset_id <$> ds))) w)).
Proof.
  intros H Hp Ha. unfold sendMessage_try, await_api, mbind, M_bind.
  rewrite H. simpl. rewrite Hp. simpl. by rewrite Ha.
Qed.

Lemma sendMessage_try_null text sid uid ds (w : World) r plan rs rest :
  api_sendQuery env text sid uid (dataset_id <$> ds) = inr r →
  orchestration_plan r = Some plan →
  agent_responses r = Some ((Some <$> rs) ++ None :: rest) →
  let w1 := emit (EApi (SendQuery text sid uid (dataset_id <$> ds))) w in
  sendMessage_try env text sid uid ds w
  = (inl (TypeError "null" "agent"),
     reveal_end env (Message.id (planMsg env plan w1))
       (Z.of_nat (length ((Some <$> rs) ++ None :: rest))) rs 0
       (planned env plan w1)).
Proof.
  intros H Hp Ha. unfold sendMessage_try, await_api, mbind, M_bind.
  rewrite H. simpl. rewrite Hp. simpl. rewrite Ha. simpl.
  by rewrite reveal_null.
Qed.

Lemma sendMessage_try_ok text sid uid ds (w : World) plan rs :
  api_sendQuery env text sid uid (dataset_id <$> ds) = inr (reply plan rs) →
  let w1 := emit (EApi (SendQuery text sid uid (dataset_id <$> ds))) w in
  let pid := Message.id (planMsg env plan w1) in
  sendMessage_try env text sid uid ds w
  = (inr tt,
     settled pid
       (reveal_end env pid (Z.of_nat (length rs)) rs 0 (planned env plan w1))).
Proof.
  intros H. unfold sendMessage_try, await_api, mbind, M_bind.
  rewrite H. simpl. rewrite length_fmap, reveal_present. done.
Qed.

End StageFacts.

(** *** A query answered in full *)

Section Success.
Context (env : Env).
Lemma settle_all_app pid (l1 l2 : list Message.t) :
  settle_all pid (l1 ++ l2) = settle_all pid l1 ++ settle_all pid l2.
Proof. apply fmap_app. Qed.

Lemma settle_all_resultMsgs pid (n : nat) (rs : list AgentResponse) :
  has_underscore pid = false →
  settle_all pid (resultMsgs env n rs) = resultMsgs env n rs.
Proof.
  intros Hp. revert n. induction rs as [|a rs IH]; intros n; [done|].
  unfold settle_all in *. simpl. rewrite IH. f_equal.
  by rewrite decide_False by by apply resultMsg_id_ne.
Qed.

Lemma settle_all_bump pid (p : number) (ms : list Message.t) :
  settle_all pid (bump pid p ms) = settle_all pid ms.
Proof.
  unfold settle_all, bump. rewrite <- list_fmap_compose. apply list_fmap_ext.
  intros _ m _. simpl. destruct (decide (Message.id m = pid)) as [E|E].
  - rewrite decide_True by done. apply settle_with_progress.
  - by rewrite decide_False.
Qed.

Lemma planMsg_id_plain (plan : OrchestrationPlan) (w : World) :
  has_underscore (Message.id (planMsg env plan w)) = false.
Proof. apply pretty_Z_plain. Qed.

(** The world a query ends in when its reply has all its parts. *)
Lemma sendMessage_ok (text : string) (w : World) plan rs :
  outcome env text w = inr (reply plan rs) →
  let w1 := emit (EApi (query text w)) (greeted env text w) in
  let pid := Message.id (planMsg env plan w1) in
  sendMessage env text w
  = (inr tt,
     settled pid
       (reveal_end env pid (Z.of_nat (length rs)) rs 0 (planned env plan w1))).
Proof.
  intros H. rewrite sendMessage_stages. unfold try_catch.
  by rewrite (sendMessage_try_ok env _ _ _ _ _ plan rs H).
Qed.

Lemma messages_greeted (text : string) (w : World) :
  messages (store (greeted env text w))
  = messages (store w) ++ [userMsg env text (entered env w)].
Proof. simpl. by rewrite entered_messages. Qed.

(** The messages at the end of such a query. *)
Lemma messages_sendMessage_ok (text : string) (w : World) plan rs :
  outcome env text w = inr (reply plan rs) →
  let w1 := emit (EApi (query text w)) (greeted env text w) in
  let pid := Message.id (planMsg env plan w1) in
  messages (store (sendMessage env text w).2)
  = settle_all pid (messages (store w) ++
                    [userMsg env text (entered env w); reasoningMsg env plan w1])
    ++ Message.settle (planMsg env plan w1)
    :: resultMsgs env (ticks (planned env plan w1)) rs.
Proof.
  intros H w1 pid. rewrite (sendMessage_ok _ _ _ _ H). 
  cbn [snd settled store messages set_isThinking set_processingStep
       set_selectedAgentId set_messages].
  rewrite messages_reveal_end by apply planMsg_id_plain.
  fold w1 pid. rewrite settle_all_app.
  rewrite settle_all_resultMsgs by apply planMsg_id_plain.
  assert (settle_all pid
            (if rs is [] then messages (store (planned env plan w1))
             else bump pid (round_pct (0 + Z.of_nat (length rs))
                              (Z.of_nat (length rs)))
                    (messages (store (planned env plan w1))))
          = settle_all pid (messages (store (planned env plan w1)))) as ->.
  { destruct rs; [done|apply settle_all_bump]. }
  assert (messages (store (planned env plan w1))
          = (messages (store w) ++
             [userMsg env text (entered env w); reasoningMsg env plan w1])
            ++ [planMsg env plan w1]) as ->.
  { simpl. rewrite entered_messages. by rewrite <- !app_assoc. }
  rewrite settle_all_app, <- app_assoc. f_equal.
  unfold settle_all at 1. simpl. by rewrite decide_True.
Qed.

(** The states such a query publishes. *)
Lemma snapshots_sendMessage_ok (text : string) (w : World) plan rs :
  outcome env text w = inr (reply plan rs) →
  let w1 := emit (EApi (query text w)) (greeted env text w) in
  let pid := Message.id (planMsg env plan w1) in
  let w2 := planned env plan w1 in
  let N := Z.of_nat (length rs) in
  ∃ l, Forall (λ s, messages s = messages (store w)) l ∧
    snapshots (sendMessage env text w).2
    = snapshots w ++ l ++
      [store (greeted env text w);
       set_messages (messages (store w1) ++ [reasoningMsg env plan w1])
         (store w1);
       store w2]
      ++ reveal_states env pid N rs 0 w2
      ++ [store (sendMessage env text w).2].
Proof.
  intros H w1 pid w2 N. destruct (entered_snapshots env w) as (l & Hl & Hfor).
  exists l. split; [done|].
  rewrite (sendMessage_ok _ _ _ _ H). fold w1 pid w2 N.
  cbn [snd]. unfold settled at 1, snapshots at 1. cbn [log].
  rewrite states_of_app. fold (snapshots (reveal_end env pid N rs 0 w2)).
  rewrite snapshots_reveal_end.
  unfold w2 at 1, planned, snapshots at 1. cbn [log].
  rewrite !states_of_app. unfold w1 at 1, emit. cbn [log].
  rewrite !states_of_app. unfold greeted at 1. cbn [log].
  rewrite states_of_app. fold (snapshots (entered env w)). rewrite Hl.
  simpl. by rewrite <- !app_assoc.
Qed.

Lemma types_settle_all pid (ms : list Message.t) :
  Message.type <$> settle_all pid ms = Message.type <$> ms.
Proof.
  unfold settle_all. rewrite <- list_fmap_compose. apply list_fmap_ext.
  intros _ m _. simpl. by destruct (decide _).
Qed.

Lemma types_resultMsgs (n : nat) (rs : list AgentResponse) :
  Message.type <$> resultMsgs env n rs = replicate (length rs) type_analysis.
Proof.
  revert n. induction rs as [|a rs IH]; intros n; [done|].
  simpl. by rewrite IH.
Qed.


End Success.



(** The scenario of the specification, run: the final messages are the
    user's, the reasoning, the plan (completed, 100) and the two results. *)
Example scenario_forecast :
  (λ m, (Message.sender m, Message.text m, Message.status m,
         Message.progress m))
  <$> messages (store (sendMessage demo_env "Forecast Q3 demand" fresh).2)
  = [(user, "Forecast Q3 demand", None, None);
     (ai, "Analyzing seasonality", None, None);
     (ai, "Agent Execution Strategy", Some completed, Some 100%float);
     (ai, "Harvester", Some completed, None);
     (ai, "Forecaster", Some completed, None)].
Proof. by vm_compute. Qed.

(** ** The arithmetic of the numbers

    Division, multiplication and the conversion of integers, as IEEE 754
    specifies them ([SpecFloat]), over the reals. *)

Section Powers.
Local Open Scope R_scope.

Lemma bpow_pos (e : Z) : 0 < bpow e.
Proof. apply powerRZ_lt. lra. Qed.

Lemma bpow_add (a b : Z) : bpow (a + b) = bpow a * bpow b.
Proof. apply powerRZ_add. lra. Qed.

Lemma bpow_0 : bpow 0 = 1.
Proof. done. Qed.

Lemma bpow_1 : bpow 1 = 2.
Proof. unfold bpow. simpl. lra. Qed.

Lemma bpow_succ (e : Z) : bpow (e + 1) = 2 * bpow e.
Proof. rewrite bpow_add, bpow_1. lra. Qed.

Lemma bpow_opp (e : Z) : bpow (- e) = / bpow e.
Proof.
  pose proof (bpow_add e (- e)) as H. rewrite Z.add_opp_diag_r, bpow_0 in H.
  pose proof (bpow_pos e). apply Rmult_eq_reg_l with (bpow e); [|lra].
  rewrite <- H. field. lra.
Qed.

Lemma bpow_le (a b : Z) : (a <= b)%Z → bpow a <= bpow b.
Proof.
  intros H. replace b with (a + (b - a))%Z by lia. rewrite bpow_add.
  assert (1 <= bpow (b - a)).
  { unfold bpow. destruct (b - a)%Z as [|p|p] eqn:E; simpl; [lra| |lia].
    apply pow_R1_Rle. lra. }
  pose proof (bpow_pos a). nra.
Qed.

Lemma bpow_lt (a b : Z) : (a < b)%Z → 2 * bpow a <= bpow b.
Proof. intros H. rewrite <- bpow_succ. apply bpow_le. lia. Qed.

Lemma bpow_IZR (e : Z) : (0 <= e)%Z → bpow e = IZR (2 ^ e).
Proof.
  intros H. unfold bpow. destruct e as [|p|p]; [done| |lia].
  simpl. rewrite pow_IZR. by rewrite positive_nat_Z.
Qed.

End Powers.

Section Digits.
Local Open Scope Z_scope.

Lemma digits_bounds (p : positive) :
  2 ^ (Zpos (digits2_pos p) - 1) <= Zpos p < 2 ^ Zpos (digits2_pos p).
Proof.
  induction p as [p IH|p IH|]; simpl digits2_pos; [| |done];
    rewrite Pos2Z.inj_succ;
    replace (Z.succ (Zpos (digits2_pos p)) - 1) with
      (Z.succ (Zpos (digits2_pos p) - 1)) by lia;
    rewrite !Z.pow_succ_r by lia; lia.
Qed.

Lemma digits_unique (p : positive) (d : Z) :
  2 ^ (d - 1) <= Zpos p < 2 ^ d → Zpos (digits2_pos p) = d.
Proof.
  intros [H1 H2]. pose proof (digits_bounds p) as [H3 H4].
  assert (0 < d) as Hd.
  { destruct (Z.lt_trichotomy d 0) as [H|[->|H]]; [|simpl in H2; lia|done].
    rewrite Z.pow_neg_r in H2 by done. lia. }
  destruct (Z.lt_trichotomy (Zpos (digits2_pos p)) d) as [H|[H|H]]; [|done|].
  - assert (2 ^ Zpos (digits2_pos p) <= 2 ^ (d - 1))
      by (apply Z.pow_le_mono_r; lia). lia.
  - assert (2 ^ d <= 2 ^ (Zpos (digits2_pos p) - 1))
      by (apply Z.pow_le_mono_r; lia). lia.
Qed.

End Digits.

Section Shifts.
Local Open Scope R_scope.

Lemma IZR_xO (p : positive) : IZR (Zpos p~0) = 2 * IZR (Zpos p).
Proof. rewrite Pos2Z.inj_xO, mult_IZR. lra. Qed.

Lemma IZR_xI (p : positive) : IZR (Zpos p~1) = 2 * IZR (Zpos p) + 1.
Proof. rewrite Pos2Z.inj_xI, plus_IZR, mult_IZR. lra. Qed.

Lemma locS_shr_1 (y : R) (mrs : shr_record) :
  locS y mrs → locS (y / 2) (shr_1 mrs).
Proof.
  destruct mrs as [m r s]. intros [Hm H]. simpl in Hm.
  destruct m as [|[p|p|]|p]; [| | | |lia];
    destruct r, s; unfold locS, locR in *;
    cbn [shr_1 shr_m loc_of_shr_record orb] in *;
    rewrite ?(IZR_xO p), ?(IZR_xI p) in *; (split; [lia|lra]).
Qed.

Lemma iter_pos_shr (n : positive) (y : R) (mrs : shr_record) :
  locS y mrs → locS (y / bpow (Zpos n)) (SpecFloat.iter_pos shr_1 n mrs).
Proof.
  revert y mrs. induction n as [n IH|n IH|]; intros y mrs H; simpl SpecFloat.iter_pos.
  - apply locS_shr_1, IH, IH in H.
    replace (y / bpow (Zpos n~1)) with (y / 2 / bpow (Zpos n) / bpow (Zpos n));
      [done|].
    rewrite Pos2Z.inj_xI, bpow_succ.
    replace (2 * Zpos n)%Z with (Zpos n + Zpos n)%Z by lia.
    rewrite bpow_add. pose proof (bpow_pos (Zpos n)). field. lra.
  - apply IH, IH in H.
    replace (y / bpow (Zpos n~0)) with (y / bpow (Zpos n) / bpow (Zpos n));
      [done|].
    rewrite Pos2Z.inj_xO.
    replace (2 * Zpos n)%Z with (Zpos n + Zpos n)%Z by lia.
    rewrite bpow_add. pose proof (bpow_pos (Zpos n)). field. lra.
  - apply locS_shr_1 in H. by rewrite bpow_1.
Qed.

Lemma locS_of_loc (y : R) (m : Z) (l : location) :
  (0 <= m)%Z → locR y m l → locS y (shr_record_of_loc m l).
Proof. intros Hm H. by destruct l as [|[]]. Qed.

(** A located real lies between its integer and the next. *)
Lemma locR_between (y : R) (m : Z) (l : location) :
  locR y m l → IZR m <= y < IZR m + 1.
Proof. destruct l as [|[]]; simpl; lra. Qed.

End Shifts.

Section Rounding.
Local Open Scope R_scope.

Lemma fexp_normal (e : Z) :
  (-1074 <= e - 53)%Z → fexp prec emax e = (e - 53)%Z.
Proof. unfold fexp, SpecFloat.emin, prec, emax. lia. Qed.

Lemma div_bpow_le (a y : R) (e : Z) : a * bpow e <= y → a <= y / bpow e.
Proof.
  intros H. pose proof (bpow_pos e) as Hb.
  replace a with (a * bpow e / bpow e) by (field; lra).
  apply Rmult_le_compat_r; [|done]. apply Rlt_le, Rinv_0_lt_compat, Hb.
Qed.

Lemma div_bpow_lt (a y : R) (e : Z) : y < a * bpow e → y / bpow e < a.
Proof.
  intros H. pose proof (bpow_pos e) as Hb.
  replace a with (a * bpow e / bpow e) by (field; lra).
  apply Rmult_lt_compat_r; [|done]. apply Rinv_0_lt_compat, Hb.
Qed.

(** The first shift of [binary_round_aux]: 53 digits are kept. *)
Lemma shr_fexp_spec (mx : positive) (ex : Z) (lx : location) (y : R) :
  let d := Zpos (digits2_pos mx) in
  locR y (Zpos mx) lx →
  (53 <= d)%Z → (-1074 <= d + ex - 53)%Z →
  ∃ mrs, shr_fexp prec emax (Zpos mx) ex lx = (mrs, (d + ex - 53)%Z) ∧
         locS (y / bpow (d - 53)) mrs ∧
         (2 ^ 52 <= shr_m mrs < 2 ^ 53)%Z.
Proof.
  intros d Hy Hd He.
  assert (∃ mrs, shr_fexp prec emax (Zpos mx) ex lx = (mrs, (d + ex - 53)%Z) ∧
                 locS (y / bpow (d - 53)) mrs) as (mrs & E & Hloc).
  { unfold shr_fexp. change (Zdigits2 (Zpos mx)) with d.
    rewrite fexp_normal by lia.
    replace (d + ex - 53 - ex)%Z with (d - 53)%Z by lia.
    pose proof (locS_of_loc y (Zpos mx) lx ltac:(lia) Hy) as H0.
    unfold shr. destruct (d - 53)%Z as [|n|n] eqn:En; [| |lia].
    - eexists. split; [f_equal; lia|]. by rewrite bpow_0, Rdiv_1_r.
    - eexists. split; [f_equal; lia|]. by apply iter_pos_shr. }
  exists mrs. split; [done|]. split; [done|].
  destruct Hloc as [_ Hloc]. apply locR_between in Hloc, Hy.
  pose proof (digits_bounds mx) as [Hlo Hhi]. fold d in Hlo, Hhi.
  clear E. clearbody d.
  assert (bpow 52 <= y / bpow (d - 53) < bpow 53) as [H52 H53].
  { split.
    - apply div_bpow_le. rewrite <- bpow_add.
      replace (52 + (d - 53))%Z with (d - 1)%Z by lia.
      rewrite bpow_IZR by lia. apply IZR_le in Hlo. lra.
    - apply div_bpow_lt. rewrite <- bpow_add.
      replace (53 + (d - 53))%Z with d by lia.
      rewrite bpow_IZR by lia.
      assert (Zpos mx + 1 <= 2 ^ d)%Z as H1 by lia.
      apply IZR_le in H1. rewrite plus_IZR in H1. lra. }
  rewrite (bpow_IZR 52) in H52 by lia. rewrite (bpow_IZR 53) in H53 by lia.
  split.
  - assert (2 ^ 52 < shr_m mrs + 1)%Z; [|lia].
    apply lt_IZR. rewrite plus_IZR. lra.
  - apply lt_IZR. lra.
Qed.

Lemma round_nearest_even_spec (y : R) (m : Z) (l : location) :
  locR y m l →
  let m' := round_nearest_even m l in
  IZR m' - / 2 <= y <= IZR m' + / 2 ∧
  ((m' = m ∧ IZR m <= y) ∨ (m' = (m + 1)%Z ∧ IZR m + / 2 <= y < IZR m + 1)).
Proof.
  destruct l as [|[]]; simpl; intros H.
  - split; [lra|]. left. split; [done|lra].
  - destruct (Z.even m).
    + split; [lra|]. left. split; [done|lra].
    + rewrite plus_IZR. split; [lra|]. right. split; [done|lra].
  - split; [lra|]. left. split; [done|lra].
  - rewrite plus_IZR. split; [lra|]. right. split; [done|lra].
Qed.

(** [binary_round_aux] on a positive number in the range of the normal
    numbers: the mantissa is the nearest to the number at its scale. *)
Lemma binary_round_aux_spec (mx : positive) (ex : Z) (lx : location) (y : R) :
  let d := Zpos (digits2_pos mx) in
  locR y (Zpos mx) lx →
  (53 <= d)%Z → (-1074 <= d + ex - 53)%Z → (d + ex - 52 <= 971)%Z →
  ∃ m e, binary_round_aux prec emax false (Zpos mx) ex lx
         = S754_finite false m e ∧
         (d + ex - 53 <= e <= d + ex - 52)%Z ∧
         near (y * bpow ex / bpow e) (Zpos m).
Proof.
  intros d Hy Hd He Hmax.
  destruct (shr_fexp_spec mx ex lx y Hy Hd He) as (mrs & E & [_ Hloc] & Hb).
  fold d in E, Hloc.
  unfold binary_round_aux. rewrite E.
  set (e' := (d + ex - 53)%Z) in *.
  assert (y * bpow ex / bpow e' = y / bpow (d - 53)) as Hscale.
  { unfold e'. replace (d + ex - 53)%Z with (ex + (d - 53))%Z by lia.
    rewrite bpow_add. pose proof (bpow_pos ex). pose proof (bpow_pos (d - 53)).
    field. lra. }
  set (y' := y / bpow (d - 53)) in *.
  destruct (round_nearest_even_spec y' _ _ Hloc) as [Hnear Hcase].
  set (m' := shr_m mrs) in *.
  set (m'' := round_nearest_even m' (loc_of_shr_record mrs)) in *.
  assert (2 ^ 52 <= m'' <= 2 ^ 53)%Z as Hb'' by lia.
  destruct (Z.eq_dec m'' (2 ^ 53)%Z) as [Etop|Ntop].
  - (* the mantissa overflows to 2^53 *)
    rewrite Etop.
    assert (shr_fexp prec emax (2 ^ 53) e' loc_Exact
            = ({| shr_m := (2 ^ 52)%Z; shr_r := false; shr_s := false |},
               (e' + 1)%Z)) as ->.
    { unfold shr_fexp. change (Zdigits2 (2 ^ 53)) with 54%Z.
      rewrite fexp_normal by lia.
      replace (54 + e' - 53 - e')%Z with 1%Z by lia. reflexivity. }
    cbn [shr_m]. change (2 ^ 52)%Z with (Zpos (2 ^ 52)%positive).
    cbv iota beta.
    replace (e' + 1 <=? emax - prec)%Z with true
      by (symmetry; apply Z.leb_le; unfold emax, prec; lia).
    eexists _, _. split; [reflexivity|]. split; [lia|].
    replace (y * bpow ex / bpow (e' + 1)) with (y' / 2).
    2:{ rewrite <- Hscale, bpow_succ. pose proof (bpow_pos e'). field. lra. }
    destruct Hcase as [[E1 _]|[E1 Hy']]; [lia|].
    assert (IZR m' = IZR (2 ^ 53) - 1) as Hm'.
    { rewrite <- Etop, E1, plus_IZR. lra. }
    split; [done|].
    change (IZR (Zpos (2 ^ 52)%positive)) with (IZR (2 ^ 52)%Z).
    assert (IZR (2 ^ 53) = 2 * IZR (2 ^ 52)) as E53.
    { rewrite <- mult_IZR. done. }
    split; [lra|]. intros _. lra.
  - destruct m'' as [|p''|p''] eqn:Ep; [lia| |lia].
    assert (Zpos (digits2_pos p'') = 53%Z) as Hd''.
    { apply digits_unique. change (53 - 1)%Z with 52%Z. lia. }
    assert (shr_fexp prec emax (Zpos p'') e' loc_Exact
            = ({| shr_m := Zpos p''; shr_r := false; shr_s := false |}, e'))
      as ->.
    { unfold shr_fexp. change (Zdigits2 (Zpos p'')) with (Zpos (digits2_pos p'')).
      rewrite Hd'', fexp_normal by lia.
      replace (53 + e' - 53 - e')%Z with 0%Z by lia. reflexivity. }
    cbn [shr_m]. cbv iota beta.
    replace (e' <=? emax - prec)%Z with true
      by (symmetry; apply Z.leb_le; unfold emax, prec; lia).
    eexists _, _. split; [reflexivity|]. split; [lia|].
    rewrite Hscale. split; [lia|]. split; [done|].
    intros E52. destruct Hcase as [[E1 Hy']|[E1 _]]; [|lia].
    rewrite E1. lra.
Qed.

End Rounding.

Section Order.
Local Open Scope R_scope.

Lemma normal_IZR (m : Z) :
  (2 ^ 52 <= m < 2 ^ 53)%Z → IZR (2 ^ 52) <= IZR m <= 2 * IZR (2 ^ 52) - 1.
Proof.
  intros [H1 H2]. split; [by apply IZR_le|].
  assert (m <= 2 * 2 ^ 52 - 1)%Z as H by lia.
  apply IZR_le in H. rewrite minus_IZR, mult_IZR in H. lra.
Qed.

Lemma IZR_52_pos : 1 <= IZR (2 ^ 52).
Proof. apply (IZR_le 1). lia. Qed.

Lemma scaled (x : R) (e : Z) : x = x / bpow e * bpow e.
Proof. pose proof (bpow_pos e). field. lra. Qed.

(** A normal number of a smaller exponent is smaller. *)
Lemma F_lt_exp (m1 e1 m2 e2 : Z) :
  (2 ^ 52 <= m1 < 2 ^ 53)%Z → (2 ^ 52 <= m2 < 2 ^ 53)%Z → (e1 < e2)%Z →
  F m1 e1 < F m2 e2.
Proof.
  intros H1%normal_IZR H2%normal_IZR He%bpow_lt. unfold F.
  pose proof (bpow_pos e1). pose proof (bpow_pos e2). pose proof IZR_52_pos.
  nra.
Qed.

Lemma F_le_inv (m1 e1 m2 e2 : Z) :
  (2 ^ 52 <= m1 < 2 ^ 53)%Z → (2 ^ 52 <= m2 < 2 ^ 53)%Z →
  F m1 e1 <= F m2 e2 → (e1 < e2)%Z ∨ (e1 = e2 ∧ (m1 <= m2)%Z).
Proof.
  intros H1 H2 H. destruct (Z.lt_trichotomy e1 e2) as [He|[->|He]].
  - by left.
  - right. split; [done|]. apply le_IZR. unfold F in H.
    pose proof (bpow_pos e2). nra.
  - pose proof (F_lt_exp m2 e2 m1 e1 H2 H1 He). lra.
Qed.

(** Rounding is monotone. *)
Lemma near_mono (x1 x2 : R) (m1 e1 m2 e2 : Z) :
  x1 < x2 → near (x1 / bpow e1) m1 → near (x2 / bpow e2) m2 →
  F m1 e1 <= F m2 e2.
Proof.
  intros Hx (Hm1 & Hy1 & Hlow1) (Hm2 & Hy2 & _).
  destruct (Z.lt_trichotomy e1 e2) as [He|[->|He]].
  - apply Rlt_le. by apply F_lt_exp.
  - rewrite (scaled x1 e2), (scaled x2 e2) in Hx.
    pose proof (bpow_pos e2). unfold F.
    assert (m1 <= m2)%Z as H12%IZR_le; [|nra].
    assert (m1 < m2 + 1)%Z; [|lia]. apply lt_IZR. rewrite plus_IZR. nra.
  - exfalso. rewrite (scaled x1 e1), (scaled x2 e2) in Hx.
    apply bpow_lt in He.
    pose proof (bpow_pos e1). pose proof (bpow_pos e2). pose proof IZR_52_pos.
    apply normal_IZR in Hm2.
    assert (IZR (2 ^ 52) - / 4 <= x1 / bpow e1) as Hlow.
    { destruct (Z.eq_dec m1 (2 ^ 52)%Z) as [E|N].
      - specialize (Hlow1 E). rewrite E in Hlow1. lra.
      - assert (2 ^ 52 + 1 <= m1)%Z as H'%IZR_le by lia.
        rewrite plus_IZR in H'. lra. }
    nra.
Qed.

(** What a number not above a normal number is rounded to is not above it. *)
Lemma near_le_float (x : R) (m1 e1 m2 e2 : Z) :
  near (x / bpow e1) m1 → (2 ^ 52 <= m2 < 2 ^ 53)%Z → x <= F m2 e2 →
  F m1 e1 <= F m2 e2.
Proof.
  intros (Hm1 & Hy1 & Hlow1) Hm2 Hx.
  destruct (Z.lt_trichotomy e1 e2) as [He|[->|He]].
  - apply Rlt_le. by apply F_lt_exp.
  - rewrite (scaled x e2) in Hx. unfold F in *.
    pose proof (bpow_pos e2).
    assert (m1 <= m2)%Z as H12%IZR_le; [|nra].
    assert (m1 < m2 + 1)%Z; [|lia]. apply lt_IZR. rewrite plus_IZR. nra.
  - exfalso. rewrite (scaled x e1) in Hx. unfold F in Hx.
    apply bpow_lt in He.
    pose proof (bpow_pos e1). pose proof (bpow_pos e2). pose proof IZR_52_pos.
    apply normal_IZR in Hm2.
    assert (IZR (2 ^ 52) - / 4 <= x / bpow e1) as Hlow.
    { destruct (Z.eq_dec m1 (2 ^ 52)%Z) as [E|N].
      - specialize (Hlow1 E). rewrite E in Hlow1. lra.
      - assert (2 ^ 52 + 1 <= m1)%Z as H'%IZR_le by lia.
        rewrite plus_IZR in H'. lra. }
    nra.
Qed.

End Order.

Section Operations.
Local Open Scope R_scope.

Lemma posnum_digits (x : float) (m : positive) (e : Z) :
  posnum x m e → Zpos (digits2_pos m) = 53%Z.
Proof. intros [_ H]. apply digits_unique. change (53 - 1)%Z with 52%Z. lia. Qed.

(** *** Division *)

Lemma new_location_spec (nb k q : Z) :
  (0 <= k < nb)%Z → locR (IZR q + IZR k / IZR nb) q (new_location nb k).
Proof.
  intros [Hk Hnb].
  assert (0 < IZR nb) as Hpos by (apply (IZR_lt 0); lia).
  set (t := IZR k / IZR nb).
  assert (t * IZR nb = IZR k) as Ht by (unfold t; field; lra).
  assert (∀ c, (2 * k ?= nb)%Z = c →
               locR (IZR q + t) q
                 (if (k =? 0)%Z then loc_Exact else loc_Inexact c)) as Hcmp.
  { intros c Hc. destruct (Z.eqb_spec k 0) as [->|Hk0].
    - simpl. unfold t. rewrite Rdiv_0_l. lra.
    - assert (0 < IZR k) as Hkpos by (apply (IZR_lt 0); lia).
      destruct (Z.compare_spec (2 * k) nb) as [E|E|E]; subst c; simpl.
      + apply (f_equal IZR) in E. rewrite mult_IZR in E. nra.
      + apply IZR_lt in E. rewrite mult_IZR in E. nra.
      + apply IZR_lt in E, Hnb. rewrite mult_IZR in E. nra. }
  unfold new_location, new_location_even, new_location_odd.
  destruct (Z.even nb) eqn:Heven; [by apply Hcmp|].
  destruct (Z.compare_spec (2 * k + 1) nb) as [E|E|E].
  - apply Hcmp, Z.compare_lt_iff. lia.
  - apply Hcmp, Z.compare_lt_iff. lia.
  - apply Hcmp, Z.compare_gt_iff.
    assert (nb ≠ 2 * k)%Z; [|lia]. intros ->.
    by rewrite Z.even_mul in Heven.
Qed.

Lemma div_posnum (a b : float) (ma mb : positive) (ea eb : Z) :
  posnum a ma ea → posnum b mb eb →
  (-1074 <= ea - eb - 53)%Z → (ea - eb - 51 <= 971)%Z →
  ∃ m e, posnum (a / b) m e ∧
         (ea - eb - 53 <= e <= ea - eb - 51)%Z ∧
         near (F (Zpos ma) ea / F (Zpos mb) eb / bpow e) (Zpos m).
Proof.
  intros Ha Hb Hlo Hhi.
  pose proof (posnum_digits _ _ _ Ha) as Hda.
  pose proof (posnum_digits _ _ _ Hb) as Hdb.
  destruct Ha as [Ea Hma], Hb as [Eb Hmb].
  unfold posnum. rewrite div_spec, Ea, Eb. unfold SF64div, SFdiv.
  cbn [xorb]. unfold SFdiv_core_binary.
  change (Zdigits2 (Zpos ma)) with (Zpos (digits2_pos ma)).
  change (Zdigits2 (Zpos mb)) with (Zpos (digits2_pos mb)).
  rewrite Hda, Hdb.
  replace (53 + ea - (53 + eb))%Z with (ea - eb)%Z by lia.
  rewrite fexp_normal by lia.
  change IntDef.Z.min with Z.min. rewrite Z.min_l by lia.
  replace (ea - eb - (ea - eb - 53))%Z with 53%Z by lia.
  cbv iota beta. change IntDef.Z.shiftl with Z.shiftl.
  change IntDef.Z.div_eucl with Z.div_eucl.
  rewrite Z.shiftl_mul_pow2 by lia.
  pose proof (Z_div_mod (Zpos ma * 2 ^ 53) (Zpos mb) ltac:(lia)) as Hdiv.
  destruct (Z.div_eucl (Zpos ma * 2 ^ 53) (Zpos mb)) as [q r].
  destruct Hdiv as [Hq Hr].
  assert (2 ^ 52 <= q < 2 ^ 54)%Z as Hqb.
  { split.
    - assert (2 ^ 52 < q + 1)%Z; [|lia].
      apply Z.mul_lt_mono_pos_l with (Zpos mb); [lia|]. nia.
    - apply Z.mul_lt_mono_pos_l with (Zpos mb); [lia|]. nia. }
  destruct q as [|pq|pq]; [lia| |lia].
  pose proof (new_location_spec (Zpos mb) r (Zpos pq) Hr) as Hloc.
  set (y := IZR (Zpos pq) + IZR r / IZR (Zpos mb)) in *.
  assert (53 <= Zpos (digits2_pos pq) <= 54)%Z as Hd.
  { pose proof (digits_bounds pq) as [H1 H2]. split.
    - assert (52 < Zpos (digits2_pos pq))%Z; [|lia].
      apply (Z.pow_lt_mono_r_iff 2); lia.
    - assert (Zpos (digits2_pos pq) - 1 < 54)%Z; [|lia].
      apply (Z.pow_lt_mono_r_iff 2); lia. }
  destruct (binary_round_aux_spec pq (ea - eb - 53) _ y Hloc)
    as (m & e & E & He & Hnear); [lia..|].
  exists m, e. split; [split; [done|apply Hnear]|]. split; [lia|].
  replace (F (Zpos ma) ea / F (Zpos mb) eb)
    with (y * bpow (ea - eb - 53)); [done|].
  unfold F, y.
  replace (ea - eb - 53)%Z with (ea + (- eb + - (53)))%Z by lia.
  rewrite !bpow_add, !bpow_opp, (bpow_IZR 53) by lia.
  assert (IZR (Zpos pq) = (IZR (Zpos ma) * IZR (2 ^ 53) - IZR r) / IZR (Zpos mb))
    as ->.
  { apply (f_equal IZR) in Hq. rewrite plus_IZR, !mult_IZR in Hq.
    rewrite Hq. field. apply not_0_IZR. lia. }
  pose proof (bpow_pos eb). field. split; [lra|].
  split; [apply not_0_IZR; lia|]. apply not_0_IZR. lia.
Qed.

(** *** Multiplication *)

Lemma mul_posnum (a b : float) (ma mb : positive) (ea eb : Z) :
  posnum a ma ea → posnum b mb eb →
  (-1074 <= ea + eb + 52)%Z → (ea + eb + 54 <= 971)%Z →
  ∃ m e, posnum (a * b) m e ∧
         (ea + eb + 52 <= e <= ea + eb + 54)%Z ∧
         near (F (Zpos ma) ea * F (Zpos mb) eb / bpow e) (Zpos m).
Proof.
  intros [Ea Hma] [Eb Hmb] Hlo Hhi.
  unfold posnum. rewrite mul_spec, Ea, Eb. unfold SF64mul, SFmul.
  cbn [xorb].
  assert (2 ^ 104 <= Zpos (ma * mb) < 2 ^ 106)%Z as Hp.
  { rewrite Pos2Z.inj_mul.
    change (2 ^ 104)%Z with (2 ^ 52 * 2 ^ 52)%Z.
    change (2 ^ 106)%Z with (2 ^ 53 * 2 ^ 53)%Z. nia. }
  assert (105 <= Zpos (digits2_pos (ma * mb)) <= 106)%Z as Hd.
  { pose proof (digits_bounds (ma * mb)) as [H1 H2]. split.
    - assert (104 < Zpos (digits2_pos (ma * mb)))%Z; [|lia].
      apply (Z.pow_lt_mono_r_iff 2); lia.
    - assert (Zpos (digits2_pos (ma * mb)) - 1 < 106)%Z; [|lia].
      apply (Z.pow_lt_mono_r_iff 2); lia. }
  destruct (binary_round_aux_spec (ma * mb) (ea + eb) loc_Exact
              (IZR (Zpos (ma * mb))) eq_refl)
    as (m & e & E & He & Hnear); [lia..|].
  exists m, e. split; [split; [done|apply Hnear]|]. split; [lia|].
  replace (F (Zpos ma) ea * F (Zpos mb) eb)
    with (IZR (Zpos (ma * mb)) * bpow (ea + eb)); [done|].
  unfold F. rewrite Pos2Z.inj_mul, mult_IZR, bpow_add. ring.
Qed.

(** *** The numbers of integers *)

Lemma iter_xO (p n : positive) :
  Zpos (Pos.iter xO p n) = (Zpos p * 2 ^ Zpos n)%Z.
Proof.
  induction n as [|n IH] using Pos.peano_ind.
  - simpl. lia.
  - rewrite Pos.iter_succ, Pos2Z.inj_xO, IH, Pos2Z.inj_succ, Z.pow_succ_r by lia.
    lia.
Qed.

Lemma binary_round_aux_exact (m : positive) (e : Z) :
  (2 ^ 52 <= Zpos m < 2 ^ 53)%Z → (-1074 <= e <= 971)%Z →
  binary_round_aux prec emax false (Zpos m) e loc_Exact = S754_finite false m e.
Proof.
  intros Hm He.
  assert (Zpos (digits2_pos m) = 53%Z) as Hd.
  { apply digits_unique. change (53 - 1)%Z with 52%Z. lia. }
  assert (shr_fexp prec emax (Zpos m) e loc_Exact
          = ({| shr_m := Zpos m; shr_r := false; shr_s := false |}, e)) as E.
  { unfold shr_fexp. change (Zdigits2 (Zpos m)) with (Zpos (digits2_pos m)).
    rewrite Hd, fexp_normal by lia.
    replace (53 + e - 53 - e)%Z with 0%Z by lia. reflexivity. }
  unfold binary_round_aux. rewrite E. cbn [shr_m loc_of_shr_record].
  cbn [round_nearest_even]. rewrite E. cbn [shr_m].
  replace (e <=? emax - prec)%Z with true; [done|].
  symmetry. apply Z.leb_le. unfold emax, prec. lia.
Qed.

Lemma num_posnum (k : Z) :
  (1 <= k < 2 ^ 53)%Z →
  ∃ m e, posnum (PrimFloat.of_uint63 (Uint63.of_Z k)) m e ∧
         F (Zpos m) e = IZR k ∧ (-52 <= e <= 0)%Z.
Proof.
  intros Hk. unfold posnum.
  rewrite of_uint63_spec, Uint63.of_Z_spec.
  rewrite Z.mod_small by (change wB with (2 ^ 63)%Z; lia).
  destruct k as [|p|p]; [lia| |lia].
  unfold binary_normalize, binary_round.
  pose proof (digits_bounds p) as [Hlo Hhi].
  set (d := Zpos (digits2_pos p)) in *.
  assert (1 <= d <= 53)%Z as Hd.
  { split; [unfold d; lia|].
    assert (d - 1 < 53)%Z; [|lia]. apply (Z.pow_lt_mono_r_iff 2); lia. }
  rewrite Z.add_0_r, fexp_normal by lia.
  unfold shl_align. rewrite Z.sub_0_r.
  destruct (d - 53)%Z as [|n|n] eqn:En; [|lia|].
  - assert (d = 53%Z) as E53 by lia. rewrite E53 in Hlo, Hhi.
    change (53 - 1)%Z with 52%Z in Hlo.
    rewrite binary_round_aux_exact by lia.
    exists p, 0%Z. split; [done|]. split; [|lia].
    unfold F. rewrite bpow_0. lra.
  - change (PosDef.Pos.iter xO p n) with (Pos.iter xO p n).
    assert (Zpos (Pos.iter xO p n) = Zpos p * 2 ^ (53 - d))%Z as Hm.
    { rewrite iter_xO. do 2 f_equal. lia. }
    assert (2 ^ 52 <= Zpos (Pos.iter xO p n) < 2 ^ 53)%Z as Hb.
    { rewrite Hm.
      replace (2 ^ 52)%Z with (2 ^ (d - 1) * 2 ^ (53 - d))%Z
        by (rewrite <- Z.pow_add_r by lia; f_equal; lia).
      replace (2 ^ 53)%Z with (2 ^ d * 2 ^ (53 - d))%Z
        by (rewrite <- Z.pow_add_r by lia; f_equal; lia).
      assert (0 < 2 ^ (53 - d))%Z by (apply Z.pow_pos_nonneg; lia). nia. }
    rewrite binary_round_aux_exact by lia.
    eexists _, _. split; [done|]. split; [|lia].
    unfold F. rewrite Hm, mult_IZR, <- bpow_IZR by lia.
    rewrite Rmult_assoc, <- bpow_add.
    replace (53 - d + Z.neg n)%Z with 0%Z by lia. rewrite bpow_0. lra.
Qed.

(** *** Comparison *)

Lemma leb_posnum (a b : float) (ma mb : positive) (ea eb : Z) :
  posnum a ma ea → posnum b mb eb →
  F (Zpos ma) ea <= F (Zpos mb) eb → PrimFloat.leb a b = true.
Proof.
  intros [Ea Hma] [Eb Hmb] H. rewrite leb_spec, Ea, Eb.
  unfold SFleb, SFcompare.
  destruct (F_le_inv _ _ _ _ Hma Hmb H) as [He|[-> Hm]].
  - by rewrite (proj2 (Z.compare_lt_iff _ _) He).
  - rewrite Z.compare_refl, Pos.compare_cont_spec. simpl.
    by destruct (Pos.compare_spec ma mb) as [?|?|?]; [..|lia].
Qed.

Lemma leb_zero_posnum (b : float) (mb : positive) (eb : Z) :
  posnum b mb eb → PrimFloat.leb 0%float b = true.
Proof. intros [Eb _]. by rewrite leb_spec, Eb. Qed.

(** Numbers with the same value are the same. *)
Lemma posnum_inj (a b : float) (ma mb : positive) (ea eb : Z) :
  posnum a ma ea → posnum b mb eb →
  F (Zpos ma) ea = F (Zpos mb) eb → a = b.
Proof.
  intros [Ea Hma] [Eb Hmb] H. apply Prim2SF_inj. rewrite Ea, Eb.
  destruct (F_le_inv _ _ _ _ Hma Hmb (Req_le _ _ H)) as [He|[He Hm]];
    destruct (F_le_inv _ _ _ _ Hmb Hma (Req_le _ _ (eq_sym H)))
      as [He'|[He' Hm']]; try lia.
  f_equal; lia.
Qed.

End Operations.

(** ** The percentage of the progress bar *)

Section Percent.
Local Open Scope R_scope.

Lemma Math_round_posnum (x : number) (m : positive) (e : Z) :
  posnum x m e → (e < 0)%Z →
  Math_round x = whole (rounded x) ∧
  (0 <= rounded x <= 2 ^ 52)%Z ∧
  IZR (rounded x) <= F (Zpos m) e + / 2 < IZR (rounded x) + 1.
Proof.
  intros [E Hm] He. unfold Math_round, rounded, whole. rewrite E.
  replace (0 <=? e)%Z with false by (symmetry; apply Z.leb_gt; lia).
  split; [done|].
  rewrite Z.shiftl_1_l, Z.shiftr_div_pow2 by lia.
  set (h := (2 ^ (- e - 1))%Z).
  assert (2 ^ (- e) = 2 * h)%Z as Eb.
  { unfold h. rewrite <- Z.pow_succ_r by lia. f_equal. lia. }
  assert (0 < h)%Z as Hh by (apply Z.pow_pos_nonneg; lia).
  rewrite Eb.
  pose proof (Z.div_mod (Zpos m + h) (2 * h) ltac:(lia)) as Hdiv.
  pose proof (Z.mod_pos_bound (Zpos m + h) (2 * h) ltac:(lia)) as Hmod.
  set (n := ((Zpos m + h) / (2 * h))%Z) in *.
  assert (F (Zpos m) e = IZR (Zpos m) / (2 * IZR h)) as EF.
  { unfold F. replace e with (- (- e))%Z at 1 by lia.
    rewrite bpow_opp, bpow_IZR, Eb, mult_IZR by lia. done. }
  assert (0 < IZR h) as Hhr by (apply (IZR_lt 0); lia).
  assert (2 * IZR h * IZR n <= IZR (Zpos m) + IZR h
          < 2 * IZR h * IZR n + 2 * IZR h) as [Hn1 Hn2].
  { rewrite <- !mult_IZR, <- !plus_IZR. split; [apply IZR_le|apply IZR_lt]; lia. }
  assert (IZR n <= F (Zpos m) e + / 2 < IZR n + 1) as Hreal.
  { rewrite EF.
    replace (IZR (Zpos m) / (2 * IZR h) + / 2)
      with ((IZR (Zpos m) + IZR h) / (2 * IZR h)) by (field; lra).
    split.
    - apply Rmult_le_reg_r with (2 * IZR h); [lra|].
      replace ((IZR (Zpos m) + IZR h) / (2 * IZR h) * (2 * IZR h))
        with (IZR (Zpos m) + IZR h) by (field; lra). lra.
    - apply Rmult_lt_reg_r with (2 * IZR h); [lra|].
      replace ((IZR (Zpos m) + IZR h) / (2 * IZR h) * (2 * IZR h))
        with (IZR (Zpos m) + IZR h) by (field; lra). lra. }
  split; [|done].
  assert (0 <= F (Zpos m) e < IZR (2 ^ 52)) as [HF0 HF1].
  { rewrite EF. apply normal_IZR in Hm.
    assert (1 <= IZR h) as Hh1 by (apply (IZR_le 1); lia).
    split.
    - apply Rmult_le_reg_r with (2 * IZR h); [lra|].
      replace (IZR (Zpos m) / (2 * IZR h) * (2 * IZR h))
        with (IZR (Zpos m)) by (field; lra).
      pose proof IZR_52_pos. lra.
    - apply Rmult_lt_reg_r with (2 * IZR h); [lra|].
      replace (IZR (Zpos m) / (2 * IZR h) * (2 * IZR h))
        with (IZR (Zpos m)) by (field; lra). nra. }
  split.
  - assert (-1 < n)%Z; [|lia]. apply lt_IZR. lra.
  - assert (n < 2 ^ 52 + 1)%Z; [|lia]. apply lt_IZR. rewrite plus_IZR. lra.
Qed.

(** The store's expression, step by step, for [k] of [N] results. *)
Lemma pct_steps (k N : Z) :
  (1 <= k <= N)%Z → (N < 2 ^ 53)%Z →
  ∃ mA eA mB eB,
    posnum (PrimFloat.div (num k) (num N)) mA eA ∧
    near (IZR k / IZR N / bpow eA) (Zpos mA) ∧
    posnum (PrimFloat.mul (PrimFloat.div (num k) (num N)) 100%float) mB eB ∧
    near (F (Zpos mA) eA * 100 / bpow eB) (Zpos mB) ∧
    (eB < 0)%Z ∧ F (Zpos mB) eB <= 100.
Proof.
  intros Hk HN.
  assert (∀ z, (1 <= z)%Z → num z = PrimFloat.of_uint63 (Uint63.of_Z z)) as Hnum.
  { intros z Hz. unfold num.
    by replace (z <? 0)%Z with false by (symmetry; apply Z.ltb_ge; lia). }
  rewrite !Hnum by lia.
  destruct (num_posnum k ltac:(lia)) as (mk & ek & Pk & Fk & Hek).
  destruct (num_posnum N ltac:(lia)) as (mN & eN & PN & FN & HeN).
  destruct (div_posnum _ _ _ _ _ _ Pk PN ltac:(lia) ltac:(lia))
    as (mA & eA & PA & HeA & HA).
  rewrite Fk, FN in HA.
  assert (posnum 100%float 7036874417766400 (-46)) as P100 by by split.
  assert (F (Zpos 7036874417766400) (-46) = 100) as F100.
  { unfold F. change (-46)%Z with (Z.opp 46). rewrite (bpow_opp 46), (bpow_IZR 46) by lia.
    change (2 ^ 46)%Z with 70368744177664%Z. lra. }
  destruct (mul_posnum _ _ _ _ _ _ PA P100 ltac:(lia) ltac:(lia))
    as (mB & eB & PB & HeB & HB).
  rewrite F100 in HB.
  assert (0 < IZR k) as Hk0 by (apply (IZR_lt 0); lia).
  assert (IZR k <= IZR N) as HkN by (apply IZR_le; lia).
  assert (F (2 ^ 52) (-52) = 1) as F1.
  { unfold F. change (-52)%Z with (Z.opp 52). rewrite (bpow_opp 52), (bpow_IZR 52) by lia. field.
    pose proof IZR_52_pos. lra. }
  assert (F (Zpos mA) eA <= 1) as HA1.
  { rewrite <- F1.
    apply (near_le_float (IZR k / IZR N)); [done|lia|].
    rewrite F1.
    apply Rmult_le_reg_r with (IZR N); [lra|].
    replace (IZR k / IZR N * IZR N) with (IZR k) by (field; lra). lra. }
  assert (F (Zpos mB) eB <= 100) as HB100.
  { rewrite <- F100. apply (near_le_float (F (Zpos mA) eA * 100)); [done|lia|].
    rewrite F100. lra. }
  exists mA, eA, mB, eB. split; [done|]. split; [done|]. split; [done|].
  split; [done|]. split; [|done].
  rewrite <- F100 in HB100.
  destruct (F_le_inv _ _ _ _ (proj2 PB) (proj2 P100) HB100) as [?|[? _]]; lia.
Qed.

(** The percentage is the number of an integer from 0 to 100. *)
Lemma round_pct_whole (k N : Z) :
  (1 <= k <= N)%Z → (N < 2 ^ 53)%Z →
  round_pct k N = whole (round_pct_Z k N) ∧ (0 <= round_pct_Z k N <= 100)%Z.
Proof.
  intros Hk HN. unfold round_pct, round_pct_Z.
  destruct (pct_steps k N Hk HN) as (mA & eA & mB & eB & _ & _ & PB & _ & He & HB).
  destruct (Math_round_posnum _ _ _ PB He) as (E & Hn & Hr).
  split; [exact E|]. split; [lia|].
  assert (rounded (PrimFloat.mul (PrimFloat.div (num k) (num N)) 100%float)
          < 101)%Z; [|lia].
  apply lt_IZR. lra.
Qed.

(** A larger share gives no smaller percentage. *)
Lemma round_pct_Z_mono (k N k' N' : Z) :
  (1 <= k <= N)%Z → (N < 2 ^ 53)%Z → (1 <= k' <= N')%Z → (N' < 2 ^ 53)%Z →
  (k * N' < k' * N)%Z → (round_pct_Z k N <= round_pct_Z k' N')%Z.
Proof.
  intros Hk HN Hk' HN' Hlt. unfold round_pct_Z.
  destruct (pct_steps k N Hk HN)
    as (mA & eA & mB & eB & PA & HA & PB & HB & He & H100).
  destruct (pct_steps k' N' Hk' HN')
    as (mA' & eA' & mB' & eB' & PA' & HA' & PB' & HB' & He' & H100').
  destruct (Math_round_posnum _ _ _ PB He) as (E & Hn & Hr).
  destruct (Math_round_posnum _ _ _ PB' He') as (E' & Hn' & Hr').
  assert (F (Zpos mA) eA <= F (Zpos mA') eA') as HAA.
  { apply (near_mono (IZR k / IZR N) (IZR k' / IZR N')); [|done..].
    assert (0 < IZR N) by (apply (IZR_lt 0); lia).
    assert (0 < IZR N') by (apply (IZR_lt 0); lia).
    assert (IZR k * IZR N' < IZR k' * IZR N)
      by (rewrite <- !mult_IZR; by apply IZR_lt).
    apply Rmult_lt_reg_r with (IZR N * IZR N'); [nra|].
    replace (IZR k / IZR N * (IZR N * IZR N')) with (IZR k * IZR N')
      by (field; lra).
    replace (IZR k' / IZR N' * (IZR N * IZR N')) with (IZR k' * IZR N)
      by (field; lra).
    done. }
  assert (F (Zpos mB) eB <= F (Zpos mB') eB') as HBB.
  { destruct (Rle_lt_or_eq_dec _ _ HAA) as [Hlt'|Heq].
    - apply (near_mono (F (Zpos mA) eA * 100) (F (Zpos mA') eA' * 100));
        [lra|done..].
    - pose proof (posnum_inj _ _ _ _ _ _ PA PA' Heq) as Eq.
      rewrite Eq in PB. destruct PB as [EB _], PB' as [EB' _].
      rewrite EB in EB'. injection EB' as -> ->. lra. }
  assert (rounded (PrimFloat.mul (PrimFloat.div (num k) (num N)) 100%float)
          < rounded (PrimFloat.mul (PrimFloat.div (num k') (num N')) 100%float)
            + 1)%Z; [|lia].
  apply lt_IZR. rewrite plus_IZR. lra.
Qed.

(** The order of the numbers of two integers. *)
Lemma whole_le (n n' : Z) :
  (0 <= n <= n')%Z → (n' < 2 ^ 53)%Z → num_le (whole n) (whole n') = true.
Proof.
  intros Hn Hn'. unfold num_le, whole.
  assert (∀ z, (1 <= z < 2 ^ 53)%Z →
               ∃ m e, posnum (num z) m e ∧ F (Zpos m) e = IZR z) as Hnum.
  { intros z Hz. unfold num.
    replace (z <? 0)%Z with false by (symmetry; apply Z.ltb_ge; lia).
    destruct (num_posnum z Hz) as (m & e & P & HF & _). by exists m, e. }
  destruct (Z.eqb_spec n 0) as [->|Hn0]; destruct (Z.eqb_spec n' 0) as [->|Hn0'].
  - done.
  - destruct (Hnum n' ltac:(lia)) as (m & e & P & _).
    by apply (leb_zero_posnum _ m e).
  - lia.
  - destruct (Hnum n ltac:(lia)) as (m & e & P & HF).
    destruct (Hnum n' ltac:(lia)) as (m' & e' & P' & HF').
    apply (leb_posnum _ _ _ _ _ _ P P'). rewrite HF, HF'. apply IZR_le. lia.
Qed.

(** One agent more never lowers the percentage. *)
Lemma round_pct_mono (k k' N : Z) :
  (1 <= k <= k')%Z → (k' <= N)%Z → (N < 2 ^ 53)%Z →
  num_le (round_pct k N) (round_pct k' N) = true.
Proof.
  intros Hk Hk' HN.
  destruct (round_pct_whole k N ltac:(lia) HN) as [-> Hn].
  destruct (round_pct_whole k' N ltac:(lia) HN) as [-> Hn'].
  apply whole_le; [|lia]. split; [lia|].
  destruct (Z.eq_dec k k') as [<-|Hne]; [lia|].
  apply round_pct_Z_mono; [lia..|nia].
Qed.

(** From 200 agents on, the last but one already gives 100. *)
Lemma round_pct_last_but_one (N : Z) :
  (200 <= N < 2 ^ 53)%Z → round_pct (N - 1) N = 100%float.
Proof.
  intros HN.
  destruct (round_pct_whole (N - 1) N ltac:(lia) ltac:(lia)) as [-> Hn].
  assert (round_pct_Z 199 200 <= round_pct_Z (N - 1) N)%Z as Hle.
  { destruct (Z.eq_dec N 200%Z) as [->|Hne]; [done|].
    apply round_pct_Z_mono; lia. }
  change (round_pct_Z 199 200) with 100%Z in Hle.
  by replace (round_pct_Z (N - 1) N) with 100%Z by lia.
Qed.

(** The readings of the staged reveal never decrease. *)
Lemma staged_from (N : Z) (b : number) (k : Z) (n : nat) :
  (N < 2 ^ 53)%Z → (1 <= k)%Z → (k + Z.of_nat n <= N + 1)%Z →
  (k = 1%Z ∧ b = 0%float) ∨ ((2 <= k)%Z ∧ b = round_pct (k - 1) N) →
  nondecreasing (b :: staged N b k n ++ [100%float]) = true.
Proof.
  intros HN. revert b k. induction n as [|n IH]; intros b k Hk Hn Hb.
  - cbn [staged app]. unfold nondecreasing. cbn [tail zip zip_with forallb fst snd].
    rewrite andb_true_r.
    destruct Hb as [[_ ->]|[Hk2 ->]]; [done|].
    destruct (round_pct_whole (k - 1) N ltac:(lia) HN) as [-> Hr].
    apply (whole_le _ 100); lia.
  - cbn [staged app].
    change (nondecreasing (b :: b :: round_pct k N
                           :: staged N (round_pct k N) (k + 1) n ++ [100%float]))
      with (num_le b b && (num_le b (round_pct k N)
            && nondecreasing (round_pct k N
                 :: staged N (round_pct k N) (k + 1) n ++ [100%float]))).
    rewrite IH; [|lia|lia|right; split; [lia|f_equal; lia]].
    rewrite andb_true_r.
    destruct (round_pct_whole k N ltac:(lia) HN) as [Ek Hr].
    destruct Hb as [[_ ->]|[Hk2 ->]].
    + rewrite Ek. change 0%float with (whole 0).
      by rewrite !whole_le by lia.
    + rewrite (round_pct_mono (k - 1) (k - 1) N), (round_pct_mono (k - 1) k N);
        [done|lia..].
Qed.

Lemma staged_nondecreasing (n : nat) :
  (Z.of_nat n < 2 ^ 53)%Z →
  nondecreasing (0%float :: staged (Z.of_nat n) 0%float 1 n ++ [100%float])
  = true.
Proof. intros Hn. apply staged_from; [done|lia|lia|by left]. Qed.

End Percent.

(** *** Below 200 agents the bar is full at the end only, by enumeration *)

Lemma below_full_200 :
  Forall (λ n, Forall (λ k, PrimFloat.ltb (round_pct (Z.of_nat k) (Z.of_nat n))
                                          100%float = true)
                      (seq 1 (n - 1)))
         (seq 0 200).
Proof. apply (bool_decide_unpack _). by vm_compute. Qed.

Lemma round_pct_early (n k : nat) :
  n < 200 → 1 ≤ k < n → round_pct (Z.of_nat k) (Z.of_nat n) ≠ 100%float.
Proof.
  intros Hn Hk E.
  pose proof (proj1 (Forall_forall _ _) below_full_200 n) as H1.
  rewrite elem_of_seq in H1.
  pose proof (proj1 (Forall_forall _ _) (H1 ltac:(lia)) k) as H2.
  rewrite elem_of_seq in H2. rewrite E in H2.
  by specialize (H2 ltac:(lia)).
Qed.

Lemma float_0_ne_100 : 0%float ≠ 100%float.
Proof. intros E. apply (f_equal Prim2SF) in E. by vm_compute in E. Qed.

(** *** The progress of the plan *)

Section Progress.
Context (env : Env).
Lemma progress_at_short (i : nat) (s : UIState.t) :
  length (messages s) ≤ i → progress_at i s = None.
Proof. intros H. unfold progress_at. by rewrite lookup_ge_None_2. Qed.

Lemma omap_all_None {A B} (f : A → option B) (l : list A) :
  Forall (λ x, f x = None) l → omap f l = [].
Proof. induction 1 as [|x l Hx _ IH]; [done|]. by rewrite omap_cons_None. Qed.

(** The value shown when the [j]-th agent of the stage (from 0) is
    revealed. *)
Lemma staged_revealed (N : Z) (b : number) (k0 : Z) (n j : nat) :
  j < n →
  staged N b k0 n !! (2 * j + 1) = Some (round_pct (k0 + Z.of_nat j) N).
Proof.
  revert b k0 j. induction n as [|n IH]; intros b k0 j Hj; [lia|].
  destruct j as [|j].
  - simpl. by rewrite Z.add_0_r.
  - replace (2 * S j + 1) with (S (S (2 * j + 1))) by lia.
    cbn [staged]. rewrite !lookup_cons, IH by lia. do 2 f_equal. lia.
Qed.

Lemma length_staged (N : Z) (b : number) (k0 : Z) (n : nat) :
  length (staged N b k0 n) = 2 * n.
Proof.
  revert b k0. induction n as [|n IH]; intros b k0; [done|].
  simpl. rewrite IH. lia.
Qed.

(** Where the loop's states stand: on the value before the loop with no
    result yet, or on the [j]-th value with [j] results. *)
Lemma reveal_states_shape pid N (i : nat) (m : Message.t) (p0 : number)
    (rs : list AgentResponse) (c : Z) (w : World) :
  messages (store w) !! i = Some m → Message.id m = pid →
  Message.progress m = Some p0 →
  Forall (λ s,
          (progress_at i s = Some p0 ∧
           length (messages s) = length (messages (store w))) ∨
          ∃ j : nat, 1 ≤ j ≤ length rs ∧
            progress_at i s = Some (round_pct (c + Z.of_nat j) N) ∧
            length (messages s) = length (messages (store w)) + j)
         (reveal_states env pid N rs c w).
Proof.
  revert m p0 c w. induction rs as [|a rs IH]; intros m p0 c w Hi Hm Hp.
  { constructor. }
  pose proof (plan_through_after_agent env pid N i m a c w Hi Hm) as Hi'.
  assert (Message.progress (Message.with_progress (round_pct (c + 1) N) m)
          = Some (round_pct (c + 1) N)) as Hp'
    by by destruct m as [? ? ? ? ? ? [[]|]].
  assert (length (messages (store (after_agent env pid N a c w)))
          = length (messages (store w)) + 1) as Hlen.
  { simpl. rewrite length_app. unfold bump. by rewrite length_fmap. }
  cbn [reveal_states]. constructor; [|constructor].
  - left. split; [|done]. unfold progress_at.
    change (messages (activate a (store w))) with (messages (store w)).
    by rewrite Hi.
  - right. exists 1. split; [simpl; lia|]. split; [|done].
    unfold progress_at. by rewrite Hi'.
  - eapply Forall_impl; [by eapply (IH _ _ (c + 1)%Z)|].
    intros s [[Hs Hl]|(j & Hj & Hs & Hl)]; right.
    + exists 1. split; [simpl; lia|]. split; [done|]. by rewrite Hl.
    + exists (S j). split; [simpl; lia|]. split.
      * rewrite Hs. do 2 f_equal. lia.
      * rewrite Hl, Hlen. lia.
Qed.

(** C3. During a query answered with a plan and [N] results, the progress
    of the plan's message reads, state after state: 0 when the plan appears;
    then for the [k]-th agent ([k] = 1..[N], in order) the previous value
    while the agent is announced and [Math.round((k / N) * 100)] when its
    result is revealed (the [2k]-th reading); and the constant 100 when the
    plan is settled.  These values never decrease, whatever [N] (counted
    exactly by a number: below [2^53]).  Below 200 agents a state showing 100
    shows all the [N] results; from 200 agents on, the result before the last
    is revealed at 100 already. *)
Theorem sendMessage_progress (text : string) (w : World) plan rs :
  outcome env text w = inr (reply plan rs) →
  let N := length rs in
  let i := length (messages (store w)) + 2 in
  let from := length (snapshots w) in
  let w' := (sendMessage env text w).2 in
  observed_progress i from w'
  = 0%float :: staged (Z.of_nat N) 0%float 1 N ++ [100%float] ∧
  (∀ k : nat, 1 ≤ k ≤ N →
     observed_progress i from w' !! (2 * k)
     = Some (round_pct (Z.of_nat k) (Z.of_nat N))) ∧
  ((Z.of_nat N < 2 ^ 53)%Z →
   nondecreasing (observed_progress i from w') = true) ∧
  (N < 200 → full_only_at_end i N (drop from (snapshots w'))) ∧
  (200 ≤ N → (Z.of_nat N < 2 ^ 53)%Z →
   observed_progress i from w' !! (2 * (N - 1)) = Some 100%float).
Proof.
  intros H N i from w'.
  destruct (snapshots_sendMessage_ok env text w plan rs H) as (l & Hl & Hs).
  pose proof (messages_sendMessage_ok env text w plan rs H) as Hm.
  set (w1 := emit (EApi (query text w)) (greeted env text w)) in *.
  set (pid := Message.id (planMsg env plan w1)) in *.
  set (w2 := planned env plan w1) in *.
  fold w' in Hs, Hm.
  assert (drop from (snapshots w')
          = l ++ [store (greeted env text w);
                  set_messages (messages (store w1) ++ [reasoningMsg env plan w1])
                    (store w1);
                  store w2]
              ++ reveal_states env pid (Z.of_nat N) rs 0 w2 ++ [store w'])
    as Hdrop.
  { rewrite Hs. unfold from. by rewrite drop_app_length. }
  assert (messages (store w2) !! i = Some (planMsg env plan w1)) as Hplan.
  { unfold w2, planned, w1. simpl. rewrite entered_messages.
    rewrite lookup_app_r; rewrite !length_app; simpl; [|unfold i; lia].
    by replace (i - _) with 0 by (unfold i; lia). }
  assert (length (messages (store w2)) = i + 1) as Hlen2.
  { unfold w2, planned, w1. simpl. rewrite entered_messages.
    rewrite !length_app. simpl. unfold i. lia. }
  assert (progress_at i (store w') = Some 100%float ∧
          length (messages (store w')) = i + 1 + N) as [Hfin Hlenfin].
  { unfold progress_at. rewrite Hm. split.
    - rewrite lookup_app_r; unfold settle_all; rewrite length_fmap, length_app;
        simpl; [|unfold i; lia].
      by replace (i - _) with 0 by (unfold i; lia).
    - rewrite length_app. unfold settle_all. rewrite length_fmap, length_app.
      simpl. rewrite length_resultMsgs. unfold i. lia. }
  assert (Forall (λ s, progress_at i s = None) l) as Hnone.
  { eapply Forall_impl; [exact Hl|]. intros s Hsl.
    apply progress_at_short. rewrite Hsl. unfold i. lia. }
  assert (observed_progress i from w'
          = 0%float :: staged (Z.of_nat N) 0%float 1 N ++ [100%float]) as Hobs.
  { unfold observed_progress. rewrite Hdrop.
    rewrite omap_app, (omap_all_None _ _ Hnone). cbn [app].
    rewrite omap_cons_None, omap_cons_None, (omap_cons_Some _ _ 0%float).
    - f_equal. rewrite omap_app. f_equal.
      + apply (observed_reveal_states env pid _ i (planMsg env plan w1));
          [done..].
      + by rewrite (omap_cons_Some _ _ 100%float).
    - unfold progress_at. by rewrite Hplan.
    - apply progress_at_short. unfold w1. simpl. rewrite entered_messages.
      rewrite !length_app. simpl. unfold i. lia.
    - apply progress_at_short. simpl. rewrite entered_messages.
      rewrite !length_app. simpl. unfold i. lia. }
  assert (∀ k : nat, 1 ≤ k ≤ N →
            observed_progress i from w' !! (2 * k)
            = Some (round_pct (Z.of_nat k) (Z.of_nat N))) as Hread.
  { intros k Hk. rewrite Hobs.
    replace (2 * k) with (S (2 * (k - 1) + 1)) by lia.
    rewrite lookup_cons.
    rewrite lookup_app_l by (rewrite length_staged; lia).
    rewrite staged_revealed by lia. do 2 f_equal. lia. }
  split; [exact Hobs|]. split; [exact Hread|]. split; [|split].
  - intros HN. rewrite Hobs. by apply staged_nondecreasing.
  - intros HN s Hin Hfull. rewrite Hdrop in Hin.
    rewrite elem_of_app in Hin. destruct Hin as [Hin|Hin].
    { rewrite (proj1 (Forall_forall _ _) Hnone s Hin) in Hfull. done. }
    cbn [app] in Hin.
    rewrite !elem_of_cons, elem_of_app, elem_of_cons, elem_of_nil in Hin.
    destruct Hin as [->|[->|[->|[Hin|[->|[]]]]]].
    + rewrite progress_at_short in Hfull; [done|].
      simpl. rewrite entered_messages, !length_app. simpl. unfold i. lia.
    + rewrite progress_at_short in Hfull; [done|].
      unfold w1. simpl. rewrite entered_messages, !length_app. simpl.
      unfold i. lia.
    + unfold progress_at in Hfull. rewrite Hplan in Hfull.
      destruct (float_0_ne_100 (inj Some _ _ Hfull)).
    + pose proof (reveal_states_shape pid (Z.of_nat N) i _ 0%float rs 0 w2
                    Hplan eq_refl eq_refl) as Hshape.
      destruct (proj1 (Forall_forall _ _) Hshape s Hin)
        as [[Hs0 _]|(j & Hj & Hsj & Hlj)].
      * rewrite Hs0 in Hfull. destruct (float_0_ne_100 (inj Some _ _ Hfull)).
      * rewrite Hsj in Hfull.
        destruct (decide (j = N)) as [->|Hne]; [lia|].
        exfalso. apply (round_pct_early N j); [done|fold N in Hj; lia|].
        exact (inj Some _ _ Hfull).
    + done.
  - intros H200 HN. rewrite Hread by lia.
    replace (Z.of_nat (N - 1)) with (Z.of_nat N - 1)%Z by lia.
    rewrite round_pct_last_but_one; [done|lia].
Qed.
End Progress.

Lemma sendMessage_progress_witness :
  outcome demo_env "Forecast Q3 demand" fresh
  = inr (reply demo_plan [ok_agent "Harvester"; ok_agent "Forecaster"]) ∧
  let w' := (sendMessage demo_env "Forecast Q3 demand" fresh).2 in
  observed_progress 2 0 w'
  = [0%float; 0%float; 50%float; 50%float; 100%float; 100%float] ∧
  observed_progress 2 0 w' !! (2 * 1) = Some (round_pct 1 2) ∧
  nondecreasing (observed_progress 2 0 w') = true ∧
  full_only_at_end 2 2 (drop 0 (snapshots w')).
Proof.
  split; [reflexivity|].
  destruct (sendMessage_progress demo_env "Forecast Q3 demand" fresh demo_plan
              [ok_agent "Harvester"; ok_agent "Forecaster"] eq_refl)
    as (Hobs & Hk & Hmono & Hfull & _).
  split; [exact Hobs|]. split; [apply (Hk 1); simpl; lia|].
  split; [apply Hmono; simpl; lia|apply Hfull; simpl; lia].
Defined.

(** With 200 agents the bar is full one agent early: the state revealing the
    199th result shows the plan at 100 while one result is still to come. *)
Lemma progress_full_before_last :
  outcome (crowd_env 200) "All of it" fresh
  = inr (reply {| reasoning := "All hands";
                  plan_agents := ar_agent <$> many_agents 200 |}
               (many_agents 200)) ∧
  ¬ full_only_at_end 2 200
      (drop 0 (snapshots (sendMessage (crowd_env 200) "All of it" fresh).2)).
Proof.
  split; [reflexivity|]. intros H.
  assert (drop 0 (snapshots (sendMessage (crowd_env 200) "All of it" fresh).2)
            !! 401
          ≫= (λ s, p ← progress_at 2 s; Some (p, length (messages s)))
          = Some (100%float, 202)) as E.
  { vm_compute. reflexivity. }
  destruct (_ !! 401) as [s|] eqn:Es; [|done].
  specialize (H s (list_elem_of_lookup_2 _ _ _ Es)).
  simpl in E. destruct (progress_at 2 s) as [p|] eqn:Ep; [|done].
  simpl in E. injection E as -> Hlen.
  specialize (H eq_refl). lia.
Qed.

(** Exact arithmetic would round 29 of 200 (14.5) up to 15; the store's
    numbers give 14, the quotient 0.145 not being a binary fraction. *)
Example round_pct_is_binary :
  round_pct 29 200 = 14%float ∧ exact_round_pct 29 200 = 15%Z.
Proof. by vm_compute. Qed.

(** *** A query, whatever becomes of it *)

Section AllWays.
Context (env : Env).
(** *** Senders *)

Lemma senders_bump pid (p : number) (ms : list Message.t) :
  Message.sender <$> bump pid p ms = Message.sender <$> ms.
Proof.
  unfold bump. rewrite <- list_fmap_compose. apply list_fmap_ext.
  intros _ m _. simpl. by destruct (decide _).
Qed.

Lemma senders_settle_all pid (ms : list Message.t) :
  Message.sender <$> settle_all pid ms = Message.sender <$> ms.
Proof.
  unfold settle_all. rewrite <- list_fmap_compose. apply list_fmap_ext.
  intros _ m _. simpl. by destruct (decide _).
Qed.

Lemma senders_resultMsgs (n : nat) (rs : list AgentResponse) :
  Message.sender <$> resultMsgs env n rs = replicate (length rs) ai.
Proof.
  revert n. induction rs as [|a rs IH]; intros n; [done|].
  simpl. by rewrite IH.
Qed.

Lemma senders_reveal_end pid N (rs : list AgentResponse) (c : Z) (w : World) :
  has_underscore pid = false →
  Message.sender <$> messages (store (reveal_end env pid N rs c w))
  = (Message.sender <$> messages (store w)) ++ replicate (length rs) ai.
Proof.
  intros Hp. rewrite messages_reveal_end by done.
  rewrite fmap_app, senders_resultMsgs. f_equal.
  destruct rs; [done|apply senders_bump].
Qed.

(** *** The log only grows *)

Lemma log_reveal_end pid N (rs : list AgentResponse) (c : Z) (w : World) :
  ∃ evs, log (reveal_end env pid N rs c w) = log w ++ evs ∧
         requests_of evs = [].
Proof.
  revert c w. induction rs as [|a rs IH]; intros c w; simpl.
  - exists []. by rewrite app_nil_r.
  - destruct (IH (c + 1)%Z (after_agent env pid N a c w)) as (evs & -> & Hevs).
    eexists (_ :: _ :: _ :: _ :: evs). split.
    + simpl. rewrite <- !app_assoc. reflexivity.
    + done.
Qed.

Lemma planned_facts (plan : OrchestrationPlan) (w1 : World) :
  Message.sender <$> messages (store (planned env plan w1))
  = (Message.sender <$> messages (store w1)) ++ replicate 2 ai ∧
  last (snapshots (planned env plan w1)) = Some (store (planned env plan w1)) ∧
  log (planned env plan w1)
  = log w1 ++ [ESet (set_messages
                       (messages (store w1) ++ [reasoningMsg env plan w1])
                       (store w1));
               ESet (store (planned env plan w1))].
Proof.
  split; [|split].
  - simpl. by rewrite !fmap_app, <- !app_assoc.
  - unfold snapshots. simpl. rewrite !states_of_app. simpl. by rewrite last_snoc.
  - simpl. by rewrite <- !app_assoc.
Qed.

(** *** Every way through the [try] block *)

Lemma sendMessage_try_summary text sid uid ds (w : World) :
  let o := api_sendQuery env text sid uid (dataset_id <$> ds) in
  ∃ wb evs n,
    sendMessage_try env text sid uid ds w
    = (match failure_of o with Some e => inl e | None => inr tt end, wb) ∧
    log wb = log w ++ EApi (SendQuery text sid uid (dataset_id <$> ds)) :: evs ∧
    requests_of evs = [] ∧
    Message.sender <$> messages (store wb)
    = (Message.sender <$> messages (store w)) ++ replicate n ai ∧
    (last (snapshots w) = Some (store w) →
     last (snapshots wb) = Some (store wb)) ∧
    (∀ e, o = inl e → store wb = store w).
Proof.
  intros o. destruct o as [e|r] eqn:Ho; unfold o in Ho.
  { eexists _, [], 0. split; [by apply sendMessage_try_rejected|].
    simpl. rewrite app_nil_r. repeat split; try done.
    unfold snapshots. simpl. rewrite states_of_app. simpl.
    by rewrite app_nil_r. }
  destruct (orchestration_plan r) as [plan|] eqn:Hplan.
  2:{ eexists _, [], 0. split.
      { rewrite (sendMessage_try_no_plan env _ _ _ _ _ r Ho Hplan).
        simpl. by rewrite Hplan. }
      simpl. rewrite app_nil_r. repeat split; try done.
      unfold snapshots. simpl. rewrite states_of_app. simpl.
      by rewrite app_nil_r. }
  destruct (agent_responses r) as [agents|] eqn:Hagents.
  2:{ eexists _, [_; _], 2. split.
      { rewrite (sendMessage_try_no_results env _ _ _ _ _ r plan Ho Hplan Hagents).
        simpl. by rewrite Hplan, Hagents. }
      split; [simpl; by rewrite <- !app_assoc|]. split; [done|].
      split; [simpl; by rewrite !fmap_app, <- !app_assoc|].
      split; [|done]. intros _. unfold snapshots. simpl.
      rewrite !states_of_app. simpl. by rewrite last_snoc. }
  destruct (agents_split agents) as [[rs ->]|(rs & rest & ->)].
  - assert (api_sendQuery env text sid uid (dataset_id <$> ds)
            = inr (reply plan rs)) as Hreply.
    { rewrite Ho. by destruct r; simplify_eq/=. }
    pose proof (sendMessage_try_ok env text sid uid ds w plan rs Hreply) as Hrun.
    cbn zeta in Hrun. rewrite Hrun.
    set (w1 := emit (EApi (SendQuery text sid uid (dataset_id <$> ds))) w).
    pose proof (planned_facts plan w1) as (Hsend & Hlast & Hlog).
    assert (store w1 = store w) as Hst1 by done.
    assert (log w1 = log w ++ [EApi (SendQuery text sid uid (dataset_id <$> ds))])
      as Hlog1 by done.
    pose proof (planMsg_id_plain env plan w1) as Hpid.
    set (pid := Message.id (planMsg env plan w1)) in *.
    set (w2 := planned env plan w1) in *. clearbody w2 pid. clearbody w1.
    destruct (log_reveal_end pid (Z.of_nat (length rs)) rs 0 w2)
      as (evs & Hevs & Hreq).
    eexists _, (_ :: _ :: evs ++ [_]), (2 + length rs). split.
    { simpl. rewrite Hplan, Hagents.
      replace (forallb _ _) with true; [done|].
      symmetry. apply forallb_forall. intros x Hx.
      apply in_map_iff in Hx as (a & <- & _). done. }
    split.
    { cbn [settled log]. rewrite Hevs, Hlog, Hlog1.
      by rewrite <- !app_assoc. }
    split.
    { unfold requests_of in *. simpl. rewrite omap_app, Hreq. done. }
    split.
    { cbn [settled store set_isThinking set_processingStep set_selectedAgentId
           set_messages messages].
      rewrite senders_settle_all, senders_reveal_end by done.
      rewrite Hsend, Hst1, <- app_assoc. f_equal. }
    split; [|done]. intros _. unfold snapshots. cbn [settled log].
    rewrite states_of_app. apply last_snoc.
  - pose proof (sendMessage_try_null env text sid uid ds w r plan rs rest
                  Ho Hplan Hagents) as Hrun.
    cbn zeta in Hrun. rewrite Hrun.
    set (w1 := emit (EApi (SendQuery text sid uid (dataset_id <$> ds))) w).
    pose proof (planned_facts plan w1) as (Hsend & Hlast & Hlog).
    assert (store w1 = store w) as Hst1 by done.
    assert (log w1 = log w ++ [EApi (SendQuery text sid uid (dataset_id <$> ds))])
      as Hlog1 by done.
    pose proof (planMsg_id_plain env plan w1) as Hpid.
    set (pid := Message.id (planMsg env plan w1)) in *.
    set (w2 := planned env plan w1) in *. clearbody w2 pid. clearbody w1.
    destruct (log_reveal_end pid
                (Z.of_nat (length ((Some <$> rs) ++ None :: rest)))
                rs 0 w2) as (evs & Hevs & Hreq).
    eexists _, (_ :: _ :: evs), (2 + length rs). split.
    { simpl. rewrite Hplan, Hagents.
      replace (forallb _ _) with false; [done|].
      symmetry. apply not_true_is_false. intros Hall.
      rewrite forallb_forall in Hall.
      specialize (Hall None). rewrite in_app_iff in Hall.
      by specialize (Hall (or_intror (or_introl eq_refl))). }
    split.
    { rewrite Hevs, Hlog, Hlog1. by rewrite <- !app_assoc. }
    split; [done|]. split.
    { rewrite senders_reveal_end by done.
      rewrite Hsend, Hst1, <- app_assoc. f_equal. }
    split; [|done]. intros _. by apply last_snapshot_reveal_end.
Qed.

End AllWays.

(** *** A call of [sendMessage], whatever becomes of its query *)

Section Whole.
Context (env : Env).
Lemma entered_events (w : World) :
  ∃ evs, log (entered env w) = log w ++ evs ∧
         Forall (before_query (messages (store w))) evs ∧
         requests_of evs
         = if falsy (sessionId (store w))
           then [CreateSession (userId (store w))] else [].
Proof.
  unfold entered. destruct (falsy _).
  - destruct (initializeSession_run env w) as (sid & evs & k & -> & _ & Hevs).
    exists (EApi (CreateSession (userId (store w))) :: evs
            ++ [ESet (set_sessionId (Some sid) (store w))]).
    split; [simpl; by rewrite <- !app_assoc|]. split.
    + constructor; [done|]. apply Forall_app. split; [|by repeat constructor].
      eapply Forall_impl; [exact Hevs|]. by intros ev [e ->].
    + unfold requests_of. simpl. rewrite omap_app. simpl.
      rewrite app_nil_r. f_equal.
      induction Hevs as [|ev evs [e ->] _ IH]; [done|]. by simpl.
  - exists []. by rewrite app_nil_r.
Qed.

(** A call of [sendMessage], whatever becomes of its query: the world [wb]
    its [try] block ends in, and the one the call ends in. *)
Lemma sendMessage_summary (text : string) (w : World) :
  let o := outcome env text w in
  let w0 := greeted env text w in
  ∃ wb evs n,
    sendMessage env text w
    = (inr tt,
       match failure_of o with
       | None => wb
       | Some e =>
           failed_world env
             (toLocaleTimeString env (clock env (ticks (entered env w)))) e wb
       end) ∧
    log wb = log w0 ++ EApi (query text w) :: evs ∧
    requests_of evs = [] ∧
    Message.sender <$> messages (store wb)
    = (Message.sender <$> messages (store w)) ++ user :: replicate n ai ∧
    last (snapshots wb) = Some (store wb) ∧
    (∀ e, o = inl e → store wb = store w0).
Proof.
  cbn zeta. rewrite sendMessage_stages. unfold try_catch.
  destruct (sendMessage_try_summary env text (sessionId (store w))
              (userId (store w)) (activeDataset (store w))
              (greeted env text w))
    as (wb & evs & n & -> & Hlog & Hreq & Hsend & Hlast & Hrej).
  exists wb, evs, n. fold (outcome env text w) in *.
  split; [by destruct (failure_of (outcome env text w))|].
  split; [done|]. split; [done|]. split.
  { rewrite Hsend, messages_greeted, fmap_app. by rewrite <- app_assoc. }
  split; [|done]. apply Hlast. unfold snapshots. simpl.
  rewrite states_of_app. apply last_snoc.
Qed.

(** C9. Whatever the text and whatever becomes of the query, [sendMessage]
    returns without throwing and has appended one message of the user, with
    the text given, followed by messages of the assistant only; the state
    showing the user's message is published before the query is sent, and
    nothing is appended and no query sent before it. *)
Theorem sendMessage_user_first (text : string) (w : World) :
  let w' := (sendMessage env text w).2 in
  (sendMessage env text w).1 = inr tt ∧
  ∃ (u : Message.t) (n : nat) (l1 l2 : list Event) (s : UIState.t),
    Message.sender u = user ∧ Message.text u = text ∧
    Message.sender <$> messages (store w')
    = (Message.sender <$> messages (store w)) ++ user :: replicate n ai ∧
    log w' = log w ++ l1 ++ ESet s :: EApi (query text w) :: l2 ∧
    Forall (before_query (messages (store w))) l1 ∧
    messages s = messages (store w) ++ [u] ∧
    requests_of l2 = [].
Proof.
  destruct (sendMessage_summary text w)
    as (wb & evs & n & Hrun & Hlog & Hreq & Hsend & _ & _).
  destruct (entered_events w) as (l1 & Hl1 & Hquiet & _).
  cbn zeta. rewrite Hrun. split; [done|].
  exists (userMsg env text (entered env w)).
  destruct (failure_of (outcome env text w)) as [e|].
  - exists (S n), l1, (evs ++ [EConsoleError "Interaction failed" e;
                               ESet (store (failed_world env
                                 (toLocaleTimeString env
                                    (clock env (ticks (entered env w)))) e wb))]),
      (store (greeted env text w)).
    split; [done|]. split; [done|]. split.
    { simpl. rewrite fmap_app, Hsend. simpl. rewrite <- app_assoc. simpl.
      do 2 f_equal. by rewrite <- replicate_cons_app. }
    split.
    { simpl. rewrite Hlog. simpl. rewrite Hl1. by rewrite <- !app_assoc. }
    split; [done|]. split; [apply messages_greeted|].
    unfold requests_of in *. by rewrite omap_app, Hreq.
  - exists n, l1, evs, (store (greeted env text w)).
    split; [done|]. split; [done|]. split; [done|]. split.
    { simpl. rewrite Hlog. simpl. rewrite Hl1. by rewrite <- !app_assoc. }
    split; [done|]. split; [apply messages_greeted|done].
Qed.

(** C6. When the query fails (the request is rejected, or processing its
    reply throws [e]), [sendMessage] still returns; the thinking flag is then
    false, and the message list is the one of the state published last
    before the failure with exactly one message appended to it: a text
    message of the assistant reading "System Error: " and the error's
    description.  Every message that was there, the plan's included, is as it
    was.  When the request itself was rejected, the state before is the old
    messages and the user's message. *)
Theorem sendMessage_failure (text : string) (w : World) (e : Thrown) :
  failure_of (outcome env text w) = Some e →
  let w' := (sendMessage env text w).2 in
  (sendMessage env text w).1 = inr tt ∧
  isThinking (store w') = false ∧
  ∃ (states : list UIState.t) (before : UIState.t) (errMsg : Message.t),
    snapshots w' = states ++ [before; store w'] ∧
    messages (store w') = messages before ++ [errMsg] ∧
    Message.sender errMsg = ai ∧
    Message.type errMsg = type_text ∧
    Message.status errMsg = None ∧
    Message.text errMsg
    = "System Error: " +:+ or_else (message e) "Unknown error" ∧
    (∀ i m, messages before !! i = Some m →
            messages (store w') !! i = Some m) ∧
    (∀ e', outcome env text w = inl e' →
           ∃ u, Message.sender u = user ∧ Message.text u = text ∧
                messages before = messages (store w) ++ [u]).
Proof.
  intros He.
  destruct (sendMessage_summary text w)
    as (wb & evs & n & Hrun & _ & _ & _ & Hlast & Hrej).
  cbn zeta. rewrite Hrun, He. split; [done|]. split; [done|].
  apply last_Some in Hlast as [states Hstates].
  eexists states, (store wb), _. split.
  { unfold snapshots in *. simpl. rewrite !states_of_app, Hstates. simpl.
    by rewrite app_nil_r, <- app_assoc. }
  split; [reflexivity|]. do 4 (split; [done|]). split.
  { intros i m Hi. by apply lookup_app_l_Some. }
  intros e' He'. exists (userMsg env text (entered env w)).
  split; [done|]. split; [done|].
  rewrite (Hrej e' He'). apply messages_greeted.
Qed.

(** The requests of a call: the session's creation if there was none, then
    the query, which carries the session id read on entry. *)
Lemma sendMessage_requests (text : string) (w : World) :
  requests (sendMessage env text w).2
  = requests w
    ++ (if falsy (sessionId (store w))
        then [CreateSession (userId (store w))] else [])
    ++ [SendQuery text (sessionId (store w)) (userId (store w))
          (dataset_id <$> activeDataset (store w))].
Proof.
  destruct (sendMessage_summary text w)
    as (wb & evs & n & Hrun & Hlog & Hreq & _).
  destruct (entered_events w) as (l1 & Hl1 & _ & Hreq1).
  rewrite Hrun.
  assert (requests wb
          = requests w
            ++ (if falsy (sessionId (store w))
                then [CreateSession (userId (store w))] else [])
            ++ [query text w]) as Hwb.
  { unfold requests. rewrite Hlog. simpl. rewrite Hl1.
    rewrite !requests_of_app, Hreq1. simpl.
    change (requests_of (?a :: evs)) with (?a :: requests_of evs).
    fold (requests_of evs). rewrite Hreq.
    by rewrite app_nil_r, <- app_assoc. }
  destruct (failure_of _); [|done].
  unfold requests in *. simpl. rewrite !requests_of_app, Hwb. simpl.
  by rewrite !app_nil_r.
Qed.

(** A call always lengthens the message list. *)
Lemma sendMessage_grows (text : string) (w : World) :
  length (messages (store w))
  < length (messages (store (sendMessage env text w).2)).
Proof.
  destruct (sendMessage_summary text w)
    as (wb & evs & n & Hrun & _ & _ & Hsend & _ & _).
  rewrite Hrun.
  apply (f_equal length) in Hsend.
  rewrite length_app, !length_fmap in Hsend. simpl in Hsend.
  destruct (failure_of _); simpl; [rewrite length_app|]; lia.
Qed.

End Whole.

Lemma sendMessage_failure_witness :
  failure_of (outcome broken_env "Forecast Q3 demand" fresh)
  = Some (TypeError "null" "agent") ∧
  let w' := (sendMessage broken_env "Forecast Q3 demand" fresh).2 in
  (sendMessage broken_env "Forecast Q3 demand" fresh).1 = inr tt ∧
  isThinking (store w') = false ∧
  ∃ (states : list UIState.t) (before : UIState.t) (errMsg : Message.t),
    snapshots w' = states ++ [before; store w'] ∧
    messages (store w') = messages before ++ [errMsg] ∧
    Message.sender errMsg = ai ∧
    Message.type errMsg = type_text ∧
    Message.status errMsg = None ∧
    Message.text errMsg
    = "System Error: " +:+
      or_else (message (TypeError "null" "agent")) "Unknown error" ∧
    (∀ i m, messages before !! i = Some m →
            messages (store w') !! i = Some m) ∧
    (∀ e', outcome broken_env "Forecast Q3 demand" fresh = inl e' →
           ∃ u, Message.sender u = user ∧
                Message.text u = "Forecast Q3 demand" ∧
                messages before = messages (store fresh) ++ [u]).
Proof.
  split; [reflexivity|].
  apply (sendMessage_failure broken_env "Forecast Q3 demand" fresh
           (TypeError "null" "agent")).
  reflexivity.
Defined.

(** The plan's message after that failure: still [processing], at the 33
    the one revealed result of three had brought it to. *)
Example plan_left_stale :
  (λ m, (Message.status m, Message.progress m)) <$>
    messages (store (sendMessage broken_env "Forecast Q3 demand" fresh).2) !! 2
  = Some (Some processing, Some 33%float).
Proof. by vm_compute. Qed.

(** C4 (the code at a state without a session). The session is created and
    stored before the query is sent, yet the query carries no session id:
    [sendMessage] passes on the [sessionId] it read on entry. *)
Lemma sendMessage_query_without_session :
  sessionId (store fresh) = None ∧
  let w' := (sendMessage demo_env "Forecast Q3 demand" fresh).2 in
  sessionId (store w') = Some "sess_backend_1" ∧
  requests w'
  = [CreateSession "demo_user_01";
     SendQuery "Forecast Q3 demand" None "demo_user_01" None].
Proof. by vm_compute. Qed.

(** C5 (the code when the query is rejected within the millisecond it was
    sent in). The user's message and the error message are both named after
    the same clock reading. *)
Lemma sendMessage_duplicate_ids :
  let w' := (sendMessage offline_env "Forecast Q3 demand" fresh).2 in
  Message.id <$> messages (store w') = ["1700000000000"; "1700000000000"] ∧
  ¬ NoDup (Message.id <$> messages (store w')).
Proof.
  cbn zeta.
  assert (Message.id <$>
            messages (store (sendMessage offline_env "Forecast Q3 demand" fresh).2)
          = ["1700000000000"; "1700000000000"]) as -> by by vm_compute.
  split; [done|]. intros H. apply NoDup_cons in H as [Hn _].
  apply Hn. by left.
Qed.

(** *** The statuses of the results *)

Section Statuses.
Context (env : Env).
Lemma reveal_app pid N (rs : list AgentResponse)
    (rest : list (option AgentResponse)) (c : Z) (w : World) :
  reveal env pid N ((Some <$> rs) ++ rest) c w
  = reveal env pid N rest (c + Z.of_nat (length rs))
      (reveal_end env pid N rs c w).
Proof.
  revert c w. induction rs as [|a rs IH]; intros c w.
  - simpl. by rewrite Z.add_0_r.
  - cbn [fmap list_fmap app length reveal_end].
    replace (c + Z.of_nat (S (length rs)))%Z
      with (c + 1 + Z.of_nat (length rs))%Z by lia.
    rewrite <- IH. reflexivity.
Qed.

Lemma log_reveal pid N (agents : list (option AgentResponse)) (c : Z)
    (w : World) :
  ∃ evs, log (reveal env pid N agents c w).2 = log w ++ evs.
Proof.
  destruct (agents_split agents) as [[rs ->]|(rs & rest & ->)].
  - rewrite reveal_present.
    destruct (log_reveal_end env pid N rs c w) as (evs & ? & _). by exists evs.
  - rewrite reveal_null.
    destruct (log_reveal_end env pid N rs c w) as (evs & ? & _). by exists evs.
Qed.

(** C10. Whenever the loop reveals a result [a] (the [k]-th of the reply,
    counting from 0), the state it publishes for it ends with a message of
    status [completed] if [a] succeeded and [failed] otherwise, and in the
    same state the agent-status map gives [a]'s agent that very status. *)
Theorem reveal_status_agrees pid N (rs : list AgentResponse)
    (rest : list (option AgentResponse)) (c : Z) (w : World)
    (k : nat) (a : AgentResponse) :
  rs !! k = Some a →
  let w' := (reveal env pid N ((Some <$> rs) ++ rest) c w).2 in
  let status := if ar_success a then completed else failed in
  ∃ (s : UIState.t) (m : Message.t),
    drop (length (snapshots w)) (snapshots w') !! (2 * k + 1) = Some s ∧
    last (messages s) = Some m ∧
    is_result_of a m ∧
    Message.status m = Some status ∧
    agentStatuses s !! ar_agent a = Some status.
Proof.
  intros Hk. cbn zeta. rewrite reveal_app.
  destruct (log_reveal pid N rest (c + Z.of_nat (length rs))
              (reveal_end env pid N rs c w)) as (evs & Hevs).
  destruct (revealed_state env pid N k a rs c w Hk) as (s & Hs & Hlast & Hst).
  exists s, (resultMsg env (ticks w + 2 * k) a).
  split; [|split; [done|split; [by repeat split|done]]].
  unfold snapshots at 2. rewrite Hevs, states_of_app.
  fold (snapshots (reveal_end env pid N rs c w)).
  rewrite snapshots_reveal_end, <- app_assoc, drop_app_length.
  by rewrite lookup_app_l by (rewrite length_reveal_states;
                              apply lookup_lt_Some in Hk; lia).
Qed.
End Statuses.

Lemma reveal_status_agrees_witness :
  [ok_agent "Harvester"; ok_agent "Forecaster"] !! 1 = Some (ok_agent "Forecaster") ∧
  let w' := (reveal demo_env "1700000000002" 2
               ((Some <$> [ok_agent "Harvester"; ok_agent "Forecaster"]) ++ [])
               0 fresh).2 in
  ∃ (s : UIState.t) (m : Message.t),
    drop (length (snapshots fresh)) (snapshots w') !! (2 * 1 + 1) = Some s ∧
    last (messages s) = Some m ∧
    is_result_of (ok_agent "Forecaster") m ∧
    Message.status m = Some completed ∧
    agentStatuses s !! "Forecaster" = Some completed.
Proof.
  split; [reflexivity|].
  apply (reveal_status_agrees demo_env "1700000000002" 2
           [ok_agent "Harvester"; ok_agent "Forecaster"] [] 0 fresh 1
           (ok_agent "Forecaster")).
  reflexivity.
Defined.

(** *** The store's reset *)

(** C7. Whatever the state before, [resetSession] leaves an empty message
    list, no active dataset, no current plan and an empty agent-status map,
    and the session id is the one there was; it cannot throw. *)
Theorem resetSession_clears (w : World) :
  (resetSession w).1 = inr tt ∧
  let s := store (resetSession w).2 in
  UIState.messages s = [] ∧
  UIState.activeDataset s = None ∧
  UIState.currentPlan s = None ∧
  UIState.agentStatuses s = ∅ ∧
  UIState.sessionId s = UIState.sessionId (store w).
Proof. by cbv. Qed.

(** *** Uploads *)

Lemma strip_prefix_app (t rest : string) : strip_prefix t (t +:+ rest) = Some rest.
Proof.
  induction t as [|c t IH]; simpl; [done|].
  by rewrite Ascii.eqb_refl.
Qed.

Lemma includes_here (t rest : string) : includes (t +:+ rest) t = true.
Proof.
  destruct t as [|c t]; simpl.
  - by destruct rest.
  - rewrite Ascii.eqb_refl.
    change (String c t) with (String c "" +:+ t).
    by rewrite strip_prefix_app.
Qed.

Lemma includes_skip (pre s t : string) :
  includes s t = true → includes (pre +:+ s) t = true.
Proof.
  intros Hs. induction pre as [|c pre IH]; [done|].
  change (String c pre +:+ s) with (String c (pre +:+ s)).
  simpl. rewrite IH. by destruct (strip_prefix _ _).
Qed.

(** C8. [uploadDataset] never throws.  If the upload succeeds, the active
    dataset becomes the one of the reply and exactly one message is appended:
    a text message of the assistant whose text contains the file name and
    the number of rows.  If it fails, the state is left as it was (no message,
    the same active dataset) and the error is written to the console, after
    the request and nothing else. *)
Theorem uploadDataset_appends_iff_success (env : Env) (file : File) (w : World) :
  let w' := (uploadDataset env file w).2 in
  (uploadDataset env file w).1 = inr tt ∧
  match api_uploadDataset env file with
  | inr res =>
      UIState.activeDataset (store w') =
        Some {| dataset_id := up_dataset_id res; filename := up_filename res;
                shape := up_shape res; columns := up_columns res |} ∧
      ∃ m, UIState.messages (store w') = UIState.messages (store w) ++ [m] ∧
           Message.sender m = ai ∧
           Message.type m = type_text ∧
           includes (Message.text m) (up_filename res) = true ∧
           includes (Message.text m) (pretty (up_shape res).1) = true
  | inl e =>
      store w' = store w ∧
      log w' = log w ++ [EApi (UploadDataset file);
                         EConsoleError "Upload failed" e]
  end.
Proof.
  unfold uploadDataset, try_catch, await_api, mbind, M_bind.
  destruct (api_uploadDataset env file) as [e|res]; cbn -[includes].
  - split; [done|]. split; [done|]. by rewrite <- app_assoc.
  - split; [done|]. split; [done|].
    eexists. split; [reflexivity|]. cbn -[includes].
    split; [done|]. split; [done|]. split.
    + apply (includes_skip "✅ Ingested **"), includes_here.
    + apply (includes_skip "✅ Ingested **"), includes_skip,
        (includes_skip "** ("), includes_here.
Qed.

(** *** Blank input *)

(** C1 (as the code has it). The input panel does not hand a text that is
    empty once trimmed to the store: [handleSubmit] then returns with the
    world, and so the message list and the rest of the state, as they were
    and the text field untouched.  [sendMessage] has no such guard: called
    with that text it lengthens the message list. *)
Theorem blank_input_stops_at_the_panel (env : Env)
    (runSimulation : string → M unit) (text : string) (w : World) :
  trim text = "" →
  handleSubmit runSimulation text w = (inr text, w) ∧
  length (messages (store w))
  < length (messages (store (sendMessage env text w).2)).
Proof.
  intros H. split; [|apply sendMessage_grows].
  unfold handleSubmit. by rewrite decide_True.
Qed.

Lemma blank_input_stops_at_the_panel_witness :
  trim "  " = "" ∧
  handleSubmit (sendMessage demo_env) "  " fresh = (inr "  ", fresh) ∧
  length (messages (store fresh))
  < length (messages (store (sendMessage demo_env "  " fresh).2)).
Proof.
  split; [reflexivity|].
  apply (blank_input_stops_at_the_panel demo_env (sendMessage demo_env) "  "
           fresh).
  reflexivity.
Defined.

(** [sendMessage] itself does not look at its text: called with the empty
    string on the fresh store it appends the user's (empty) message and
    goes on with the query. *)
Lemma sendMessage_blank_appends :
  trim "" = "" ∧
  length (UIState.messages (store (sendMessage demo_env "" fresh).2))
  ≠ length (UIState.messages (store fresh)).
Proof. split; [reflexivity|]. by vm_compute. Qed.

(** * More of the store and of its callers *)

(** ** What every way through [sendMessage] keeps *)

(** A relation between worlds that every step of [sendMessage] respects
    holds between the world the user's message is built in and the one the
    call ends in. *)
Section Preserved.
Context (env : Env) (R : World → World → Prop) (P : string → Prop).
Hypothesis R_refl : ∀ w, R w w.
Hypothesis R_trans : ∀ a b c, R a b → R b c → R a c.
Hypothesis R_greeted : ∀ text w, R (entered env w) (greeted env text w).
Hypothesis R_request : ∀ c w, R w (emit (EApi c) w).
Hypothesis R_tick : ∀ w, R w (tick w).
Hypothesis R_planned : ∀ plan w, R w (planned env plan w).
Hypothesis R_after_agent : ∀ pid N a c w,
  P pid → R w (after_agent env pid N a c w).
Hypothesis R_settled : ∀ pid w, P pid → R w (settled pid w).
Hypothesis R_failed : ∀ timestamp e w, R w (failed_world env timestamp e w).

Lemma reveal_end_preserved pid N (rs : list AgentResponse) (c : Z) (w : World) :
  P pid → R w (reveal_end env pid N rs c w).
Proof.
  intros Hp. revert c w. induction rs as [|a rs IH]; intros c w; simpl.
  - apply R_refl.
  - eapply R_trans; [by apply R_after_agent|apply IH].
Qed.

Lemma sendMessage_try_preserved text sid uid ds (w : World) :
  (∀ r plan,
     api_sendQuery env text sid uid (dataset_id <$> ds) = inr r →
     orchestration_plan r = Some plan →
     P (Message.id
          (planMsg env plan
             (emit (EApi (SendQuery text sid uid (dataset_id <$> ds))) w)))) →
  R w (sendMessage_try env text sid uid ds w).2.
Proof.
  intros HP.
  set (w1 := emit (EApi (SendQuery text sid uid (dataset_id <$> ds))) w) in *.
  assert (R w w1) as H1 by apply R_request.
  destruct (api_sendQuery env text sid uid (dataset_id <$> ds)) as [e|r] eqn:Ho.
  { by rewrite (sendMessage_try_rejected env _ _ _ _ _ e Ho). }
  destruct (orchestration_plan r) as [plan|] eqn:Hplan.
  2:{ rewrite (sendMessage_try_no_plan env _ _ _ _ _ r Ho Hplan).
      eapply R_trans; [exact H1|apply R_tick]. }
  assert (R w (planned env plan w1)) as H2.
  { eapply R_trans; [exact H1|apply R_planned]. }
  destruct (agent_responses r) as [agents|] eqn:Hagents.
  2:{ by rewrite (sendMessage_try_no_results env _ _ _ _ _ r plan Ho Hplan
                    Hagents). }
  pose proof (HP r plan eq_refl Hplan) as Hpid.
  destruct (agents_split agents) as [[rs ->]|(rs & rest & ->)].
  - assert (api_sendQuery env text sid uid (dataset_id <$> ds)
            = inr (reply plan rs)) as Hreply.
    { rewrite Ho. by destruct r; simplify_eq/=. }
    pose proof (sendMessage_try_ok env text sid uid ds w plan rs Hreply) as Hrun.
    cbn zeta in Hrun. rewrite Hrun. cbn [snd].
    eapply R_trans; [exact H2|].
    eapply R_trans; [by apply reveal_end_preserved|by apply R_settled].
  - pose proof (sendMessage_try_null env text sid uid ds w r plan rs rest
                  Ho Hplan Hagents) as Hrun.
    cbn zeta in Hrun. rewrite Hrun. cbn [snd].
    eapply R_trans; [exact H2|by apply reveal_end_preserved].
Qed.

Lemma sendMessage_preserved_at (text : string) (w : World) :
  (∀ pid, planId env text w = Some pid → P pid) →
  R (entered env w) (sendMessage env text w).2.
Proof.
  intros HP. rewrite sendMessage_stages. unfold try_catch.
  assert (R (greeted env text w)
            (sendMessage_try env text (sessionId (store w)) (userId (store w))
               (activeDataset (store w)) (greeted env text w)).2) as H.
  { apply sendMessage_try_preserved. intros r plan Hr Hplan. apply HP.
    unfold planId, outcome. rewrite Hr. simpl. by rewrite Hplan. }
  destruct (sendMessage_try env text _ _ _ (greeted env text w)) as [[e|[]] wb].
  - rewrite sendMessage_catch_run. cbn [snd] in *.
    eapply R_trans; [apply R_greeted|].
    eapply R_trans; [exact H|apply R_failed].
  - cbn [snd] in *. eapply R_trans; [apply R_greeted|exact H].
Qed.

End Preserved.

(** The same for steps that only need the plan's id to have no
    underscore. *)
Section PreservedPlain.
Context (env : Env) (R : World → World → Prop).
Hypothesis R_refl : ∀ w, R w w.
Hypothesis R_trans : ∀ a b c, R a b → R b c → R a c.
Hypothesis R_greeted : ∀ text w, R (entered env w) (greeted env text w).
Hypothesis R_request : ∀ c w, R w (emit (EApi c) w).
Hypothesis R_tick : ∀ w, R w (tick w).
Hypothesis R_planned : ∀ plan w, R w (planned env plan w).
Hypothesis R_after_agent : ∀ pid N a c w,
  has_underscore pid = false → R w (after_agent env pid N a c w).
Hypothesis R_settled : ∀ pid w,
  has_underscore pid = false → R w (settled pid w).
Hypothesis R_failed : ∀ timestamp e w, R w (failed_world env timestamp e w).

Lemma planId_plain (text : string) (w : World) (pid : string) :
  planId env text w = Some pid → has_underscore pid = false.
Proof.
  unfold planId. destruct (outcome env text w) as [e|r]; [done|].
  destruct (orchestration_plan r) as [plan|]; [|done].
  intros [= <-]. apply pretty_Z_plain.
Qed.

Lemma sendMessage_preserved (text : string) (w : World) :
  R (entered env w) (sendMessage env text w).2.
Proof.
  apply (sendMessage_preserved_at env R (λ pid, has_underscore pid = false));
    try done.
  apply planId_plain.
Qed.

End PreservedPlain.

(** ** Sessions *)

Section Sessions.
Context (env : Env).

Lemma falsy_Some (sid : string) : falsy (Some sid) = false → sid ≠ "".
Proof. by destruct sid. Qed.

Lemma sendMessage_outside (text : string) (w : World) :
  outside_query (store (sendMessage env text w).2)
  = outside_query (store (entered env w)).
Proof.
  apply (sendMessage_preserved env
           (λ w w', outside_query (store w') = outside_query (store w)));
    try done.
  intros a b c H1 H2. by rewrite H2.
Qed.

Lemma entered_same (w : World) :
  falsy (sessionId (store w)) = false → entered env w = w.
Proof. unfold entered. by intros ->. Qed.

(** X1. [initializeSession] never throws.  It sends one request, the
    creation of a session for the store's user, and publishes one state,
    which differs from the one before in the session id only.  The id it
    stores is never empty: it is the one of the reply if that is not empty,
    ["sess_"] and the clock reading if the reply has none, and
    ["offline_sess_"] and the clock reading if the request was rejected, in
    which case the rejection is written to the console. *)
Theorem initializeSession_sets_session (w : World) :
  let w' := (initializeSession env w).2 in
  (initializeSession env w).1 = inr tt ∧
  requests w' = requests w ++ [CreateSession (userId (store w))] ∧
  snapshots w' = snapshots w ++ [store w'] ∧
  ∃ sid, store w' = set_sessionId (Some sid) (store w) ∧ sid ≠ "" ∧
    match api_createSession env (userId (store w)) with
    | inr res =>
        sid = if falsy (session_id res)
              then "sess_" +:+ pretty (clock env (ticks w))
              else or_else (session_id res) ""
    | inl e =>
        sid = "offline_sess_" +:+ pretty (clock env (ticks w)) ∧
        EConsoleError "Session Init Failed" e ∈ log w'
    end.
Proof.
  cbn zeta.
  unfold initializeSession, try_catch, await_api, mbind, M_bind, get, requests,
    snapshots.
  simpl.
  destruct (api_createSession env (userId (store w))) as [e|[[[|c sid]|]]];
    simpl; (split; [done|]);
    (split; [rewrite !requests_of_app; simpl; by rewrite ?app_nil_r|]);
    (split; [rewrite !states_of_app; simpl; by rewrite ?app_nil_r|]);
    eexists; (split; [reflexivity|]); (split; [done|]); try done.
  split; [done|]. rewrite !elem_of_app, !elem_of_cons. auto.
Qed.

(** X2. [sendMessage] never writes the sidebar flag, the panel width, the
    theme, the user id or the active dataset.  When it returns the store has
    a session id that is not empty; if it had one on entry, that id is kept
    and no session is requested. *)
Theorem sendMessage_keeps_session (text : string) (w : World) :
  let s := store w in
  let s' := store (sendMessage env text w).2 in
  (isSidebarOpen s', rightPanelWidth s', isDarkMode s', userId s',
   activeDataset s')
  = (isSidebarOpen s, rightPanelWidth s, isDarkMode s, userId s,
     activeDataset s) ∧
  falsy (sessionId s') = false ∧
  (falsy (sessionId s) = false →
   sessionId s' = sessionId s ∧
   ∀ uid, CreateSession uid ∉ drop (length (requests w))
                                    (requests (sendMessage env text w).2)).
Proof.
  cbn zeta. pose proof (sendMessage_outside text w) as H.
  unfold outside_query in H.
  destruct (entered_store env w) as [sid Hsid].
  pose proof (entered_session env w) as Hne.
  injection H as H1 H2 H3 H4 H5 H6.
  rewrite H1, H2, H3, H4, H5, H6, Hsid. split; [done|].
  rewrite <- Hsid. split; [done|]. intros Hs.
  rewrite entered_same by done. split; [done|].
  intros uid. rewrite sendMessage_requests, Hs. simpl.
  rewrite drop_app_length. intros [?|?%elem_of_nil]%elem_of_cons; done.
Qed.

(** X3. Whatever became of a first call of [sendMessage], the next call
    sends one request only, its query, and that query carries the session id
    the store then holds, which is not empty, with the user id and the
    dataset of before. *)
Theorem next_query_carries_session (text1 text2 : string) (w : World) :
  let w1 := (sendMessage env text1 w).2 in
  ∃ sid, sessionId (store w1) = Some sid ∧ sid ≠ "" ∧
    requests (sendMessage env text2 w1).2
    = requests w1
      ++ [SendQuery text2 (Some sid) (userId (store w))
            (dataset_id <$> activeDataset (store w))].
Proof.
  cbn zeta. pose proof (sendMessage_outside text1 w) as H.
  destruct (entered_store env w) as [sid0 Hsid].
  pose proof (entered_session env w) as Hne.
  unfold outside_query in H. rewrite Hsid in H, Hne.
  injection H as _ _ _ Hs Hu Hd. cbn in Hs, Hu, Hd, Hne.
  destruct sid0 as [sid|]; [|done]. exists sid.
  split; [done|]. split; [by apply falsy_Some|].
  rewrite sendMessage_requests, Hs, Hu, Hd, Hne. done.
Qed.

(** X4. After an upload that succeeded, the query of the next [sendMessage]
    carries the id of the dataset uploaded; after [resetSession] it carries
    no dataset id.  In both cases it carries the session id and the user id
    the store had before the upload. *)
Theorem query_after_upload (file : File) (text : string) (w : World)
    (res : UploadResponse) :
  api_uploadDataset env file = inr res →
  let w1 := (uploadDataset env file w).2 in
  last (requests (sendMessage env text w1).2)
  = Some (SendQuery text (sessionId (store w)) (userId (store w))
            (Some (up_dataset_id res))) ∧
  last (requests (sendMessage env text (resetSession w1).2).2)
  = Some (SendQuery text (sessionId (store w)) (userId (store w)) None).
Proof.
  intros H. cbn zeta. rewrite !sendMessage_requests, !app_assoc, !last_snoc.
  unfold uploadDataset, try_catch, await_api, mbind, M_bind. rewrite H.
  done.
Qed.

End Sessions.

Lemma sendMessage_keeps_session_witness :
  falsy (sessionId (store resumed)) = false ∧
  sessionId (store (sendMessage demo_env "Forecast Q3 demand" resumed).2)
  = sessionId (store resumed) ∧
  ∀ uid, CreateSession uid
         ∉ drop (length (requests resumed))
             (requests (sendMessage demo_env "Forecast Q3 demand" resumed).2).
Proof.
  split; [reflexivity|].
  destruct (sendMessage_keeps_session demo_env "Forecast Q3 demand" resumed)
    as (_ & _ & H).
  apply H. reflexivity.
Defined.

Lemma query_after_upload_witness :
  api_uploadDataset demo_env data_csv
  = inr {| up_dataset_id := "ds_1"; up_filename := "data.csv";
           up_shape := (120, 4)%Z; up_columns := ["sku"; "qty"] |} ∧
  let w1 := (uploadDataset demo_env data_csv fresh).2 in
  last (requests (sendMessage demo_env "Forecast Q3 demand" w1).2)
  = Some (SendQuery "Forecast Q3 demand" None "demo_user_01" (Some "ds_1")) ∧
  last (requests (sendMessage demo_env "Forecast Q3 demand"
                    (resetSession w1).2).2)
  = Some (SendQuery "Forecast Q3 demand" None "demo_user_01" None).
Proof.
  split; [reflexivity|].
  apply (query_after_upload demo_env data_csv "Forecast Q3 demand" fresh
           {| up_dataset_id := "ds_1"; up_filename := "data.csv";
              up_shape := (120, 4)%Z; up_columns := ["sku"; "qty"] |}).
  reflexivity.
Defined.

(** ** Messages stay *)

Section Grown.
Context (env : Env).

Lemma payload_with_progress (p : number) (m : Message.t) :
  core (Message.with_progress p m) = core m ∧
  payload (Message.with_progress p m) = payload m.
Proof. by destruct m as [? ? ? ? ? ? [md|]]. Qed.

Lemma payload_settle (m : Message.t) :
  core (Message.settle m) = core m ∧ payload (Message.settle m) = payload m.
Proof. by destruct m as [? ? ? ? ? ? [md|]]. Qed.

(** What rewriting the messages that carry the id [pid] does to the message
    at position [i]. *)
Lemma rewritten_at pid (g : Message.t → Message.t) (thePlan : option string)
    (ms : list Message.t) (i : nat) (m : Message.t) :
  (∀ m, core (g m) = core m ∧ payload (g m) = payload m) →
  has_underscore pid = false → thePlan = Some pid →
  ms !! i = Some m →
  ∃ m', ((λ m, if decide (Message.id m = pid) then g m else m) <$> ms) !! i
        = Some m' ∧
        core m' = core m ∧ payload m' = payload m ∧
        (has_underscore (Message.id m) = true → m' = m) ∧
        (thePlan ≠ Some (Message.id m) → m' = m).
Proof.
  intros Hg Hp -> Hi. rewrite list_lookup_fmap, Hi. eexists. split; [done|].
  destruct (decide (Message.id m = pid)) as [E|E]; [|done].
  destruct (Hg m) as [Hc Hl]. split; [done|]. split; [done|]. split.
  - intros Hu. congruence.
  - intros Hne. by rewrite E in Hne.
Qed.

(** X5. [sendMessage] only appends: whatever becomes of the query, every
    message that was in the list is still at its position afterwards, with
    the id, sender, text, time stamp and type it had, and with its metadata
    as it was but for the progress.  It is left exactly as it was unless it
    carries the id of the plan's message this call makes: only on messages
    of that id can the status and the progress be rewritten, and on no
    message when the call makes no plan.  In particular a message whose id
    has an underscore, as the ids of the result messages have, is left as it
    was. *)
Theorem sendMessage_appends_only (text : string) (w : World) (i : nat)
    (m : Message.t) :
  messages (store w) !! i = Some m →
  ∃ m', messages (store (sendMessage env text w).2) !! i = Some m' ∧
        core m' = core m ∧ payload m' = payload m ∧
        (has_underscore (Message.id m) = true → m' = m) ∧
        (planId env text w ≠ Some (Message.id m) → m' = m).
Proof.
  rewrite <- (entered_messages env w). revert i m.
  apply (sendMessage_preserved_at env
           (λ w0 w', ∀ i m, messages (store w0) !! i = Some m →
              ∃ m', messages (store w') !! i = Some m' ∧
                    core m' = core m ∧ payload m' = payload m ∧
                    (has_underscore (Message.id m) = true → m' = m) ∧
                    (planId env text w ≠ Some (Message.id m) → m' = m))
           (λ pid, has_underscore pid = false ∧ planId env text w = Some pid)).
  - intros w0 i m Hi. by exists m.
  - intros a b c Hab Hbc i m Hi.
    destruct (Hab i m Hi) as (m1 & H1 & Hc1 & Hl1 & Hu1 & Hp1).
    destruct (Hbc i m1 H1) as (m2 & H2 & Hc2 & Hl2 & Hu2 & Hp2).
    exists m2. split; [done|]. split; [congruence|]. split; [congruence|].
    split.
    + intros Hu. specialize (Hu1 Hu). subst m1. by apply Hu2.
    + intros Hne. specialize (Hp1 Hne). subst m1. by apply Hp2.
  - intros t w0 i m Hi. exists m. split; [|done].
    simpl. by apply lookup_app_l_Some.
  - intros c w0 i m Hi. by exists m.
  - intros w0 i m Hi. by exists m.
  - intros plan w0 i m Hi. exists m. split; [|done].
    simpl. by do 2 apply lookup_app_l_Some.
  - intros pid N a c w0 [Hp Hid] i m Hi.
    destruct (rewritten_at pid
                (Message.with_progress (round_pct (c + 1) N))
                (planId env text w) _ i m
                (payload_with_progress _) Hp Hid Hi) as (m' & H' & ?).
    exists m'. split; [|done]. simpl. by apply lookup_app_l_Some.
  - intros pid w0 [Hp Hid] i m Hi.
    exact (rewritten_at pid Message.settle (planId env text w) _ i m
             payload_settle Hp Hid Hi).
  - intros ts e w0 i m Hi. exists m. split; [|done].
    simpl. by apply lookup_app_l_Some.
  - intros pid Hid. split; [|done]. by apply (planId_plain env text w).
Qed.

(** X6. If no agent is marked [processing] when [sendMessage] is called,
    none is when it returns, whatever became of the query: each agent the
    loop marks [processing] it marks [completed] or [failed] before anything
    can fail. *)
Theorem sendMessage_leaves_none_processing (text : string) (w : World) :
  (∀ name, agentStatuses (store w) !! name ≠ Some processing) →
  ∀ name, agentStatuses (store (sendMessage env text w).2) !! name
          ≠ Some processing.
Proof.
  assert (agentStatuses (store (entered env w)) = agentStatuses (store w)) as <-.
  { by destruct (entered_store env w) as [sid ->]. }
  apply (sendMessage_preserved env
           (λ w w', (∀ name, agentStatuses (store w) !! name ≠ Some processing) →
                    ∀ name, agentStatuses (store w') !! name ≠ Some processing));
    try done.
  - intros a b c Hab Hbc H. by apply Hbc, Hab.
  - intros pid N a c w0 _ H name. simpl. rewrite insert_insert_eq.
    destruct (decide (ar_agent a = name)) as [<-|Hne].
    + rewrite lookup_insert_eq. by destruct (ar_success a).
    + rewrite lookup_insert_ne by done. apply H.
Qed.

End Grown.

Lemma sendMessage_appends_only_witness :
  let w1 := (sendMessage demo_env "Forecast Q3 demand" fresh).2 in
  let m := resultMsg demo_env 6 (ok_agent "Harvester") in
  messages (store w1) !! 3 = Some m ∧
  ∃ m', messages (store (sendMessage demo_env "And Q4?" w1).2) !! 3 = Some m' ∧
        core m' = core m ∧ payload m' = payload m ∧
        (has_underscore (Message.id m) = true → m' = m) ∧
        (planId demo_env "And Q4?" w1 ≠ Some (Message.id m) → m' = m).
Proof.
  split; [reflexivity|].
  apply (sendMessage_appends_only demo_env "And Q4?"
           (sendMessage demo_env "Forecast Q3 demand" fresh).2 3).
  reflexivity.
Defined.

Lemma sendMessage_leaves_none_processing_witness :
  (∀ name, agentStatuses (store fresh) !! name ≠ Some processing) ∧
  ∀ name,
    agentStatuses (store (sendMessage broken_env "Forecast Q3 demand" fresh).2)
      !! name ≠ Some processing.
Proof.
  assert (∀ name, agentStatuses (store fresh) !! name ≠ Some processing) as H.
  { intros name. change (agentStatuses (store fresh)) with (∅ : gmap string Status).
    by rewrite lookup_empty. }
  split; [exact H|].
  exact (sendMessage_leaves_none_processing broken_env "Forecast Q3 demand"
           fresh H).
Defined.

(** ** The state a query ends in *)

Section Settled.
Context (env : Env).

Lemma statuses_reveal_end pid N (rs : list AgentResponse) (c : Z) (w : World) :
  agentStatuses (store (reveal_end env pid N rs c w))
  = foldl (λ st a, <[ar_agent a := result_status a]> st)
      (agentStatuses (store w)) rs.
Proof.
  revert c w. induction rs as [|a rs IH]; intros c w; [done|].
  cbn [reveal_end foldl]. rewrite IH. f_equal.
  simpl. apply insert_insert_eq.
Qed.

Lemma statuses_other (rs : list AgentResponse) (st : gmap string Status)
    (name : string) :
  Forall (λ b, ar_agent b ≠ name) rs →
  foldl (λ st a, <[ar_agent a := result_status a]> st) st rs !! name
  = st !! name.
Proof.
  intros H. revert st. induction H as [|b rs Hb _ IH]; intros st; [done|].
  simpl. rewrite IH. by apply lookup_insert_ne.
Qed.

Lemma panel_reveal_end pid N (rs : list AgentResponse) (c : Z) (w : World) :
  (isRightPanelOpen (store (reveal_end env pid N rs c w)),
   currentPlan (store (reveal_end env pid N rs c w)))
  = (isRightPanelOpen (store w), currentPlan (store w)).
Proof.
  revert c w. induction rs as [|a rs IH]; intros c w; [done|].
  cbn [reveal_end]. by rewrite IH.
Qed.

(** X7. After a query answered in full, the agent-status map gives each
    agent of the reply the status of its last result there, [completed] if
    that succeeded and [failed] if not, and gives every other name what it
    gave before the call: the statuses of earlier queries stay. *)
Theorem sendMessage_statuses (text : string) (w : World) plan rs :
  outcome env text w = inr (reply plan rs) →
  let st := agentStatuses (store (sendMessage env text w).2) in
  (∀ l1 a l2, rs = l1 ++ a :: l2 →
              Forall (λ b, ar_agent b ≠ ar_agent a) l2 →
              st !! ar_agent a
              = Some (if ar_success a then completed else failed)) ∧
  (∀ name, Forall (λ b, ar_agent b ≠ name) rs →
           st !! name = agentStatuses (store w) !! name).
Proof.
  intros H. cbn zeta. rewrite (sendMessage_ok _ _ _ _ _ H).
  cbn [snd settled store agentStatuses set_isThinking set_processingStep
       set_selectedAgentId set_messages].
  rewrite statuses_reveal_end.
  assert (agentStatuses
            (store (planned env plan
                      (emit (EApi (query text w)) (greeted env text w))))
          = agentStatuses (store w)) as ->.
  { simpl. by destruct (entered_store env w) as [sid ->]. }
  split.
  - intros l1 a l2 -> Hl2. rewrite foldl_app. simpl.
    rewrite statuses_other by done. apply lookup_insert_eq.
  - intros name Hn. by apply statuses_other.
Qed.

(** X8. After a query answered in full, the store is not thinking and shows
    no processing step, no agent is selected although each reveal selected
    its agent, the right panel is open and the current plan is the one of
    the reply. *)
Theorem sendMessage_settles (text : string) (w : World) plan rs :
  outcome env text w = inr (reply plan rs) →
  let s' := store (sendMessage env text w).2 in
  isThinking s' = false ∧ processingStep s' = None ∧
  selectedAgentId s' = None ∧ isRightPanelOpen s' = true ∧
  currentPlan s' = Some plan.
Proof.
  intros H. cbn zeta. rewrite (sendMessage_ok _ _ _ _ _ H).
  do 3 (split; [done|]).
  cbn [snd settled store isRightPanelOpen currentPlan set_isThinking
       set_processingStep set_selectedAgentId set_messages].
  pose proof (panel_reveal_end
                (Message.id (planMsg env plan
                   (emit (EApi (query text w)) (greeted env text w))))
                (Z.of_nat (length rs)) rs 0
                (planned env plan
                   (emit (EApi (query text w)) (greeted env text w)))) as Hp.
  split.
  - etransitivity; [exact (f_equal fst Hp)|done].
  - etransitivity; [exact (f_equal snd Hp)|done].
Qed.

(** X9. When the query fails, the state [sendMessage] ends in is the state
    published last before the failure with the thinking flag cleared, the
    processing step cleared and the error message appended, and nothing else
    changed: the panel, the selected agent, the current plan and the agent
    statuses stay as the failure found them. *)
Theorem sendMessage_failure_keeps (text : string) (w : World) (e : Thrown) :
  failure_of (outcome env text w) = Some e →
  let w' := (sendMessage env text w).2 in
  ∃ (states : list UIState.t) (before : UIState.t) (errMsg : Message.t),
    snapshots w' = states ++ [before; store w'] ∧
    store w'
    = set_isThinking false
        (set_processingStep None
           (set_messages (messages before ++ [errMsg]) before)).
Proof.
  intros He.
  destruct (sendMessage_summary env text w)
    as (wb & evs & n & Hrun & _ & _ & _ & Hlast & _).
  cbn zeta. rewrite Hrun, He.
  apply last_Some in Hlast as [states Hstates].
  eexists states, (store wb), _. split; [|reflexivity].
  unfold snapshots in *. simpl. rewrite !states_of_app, Hstates. simpl.
  by rewrite app_nil_r, <- app_assoc.
Qed.

(** *** The timers *)

Lemma timers_of_app (l1 l2 : list Event) :
  timers_of (l1 ++ l2) = timers_of l1 ++ timers_of l2.
Proof. apply omap_app. Qed.

Lemma timers_entered (w : World) :
  timers_of (log (entered env w)) = timers_of (log w).
Proof.
  unfold entered. destruct (falsy _); [|done].
  destruct (initializeSession_run env w) as (sid & evs & k & -> & _ & Hevs).
  cbn [snd log]. rewrite !timers_of_app.
  change (timers_of (EApi ?c :: evs)) with (timers_of evs).
  assert (timers_of evs = []) as ->.
  { induction Hevs as [|ev evs [e ->] _ IH]; [done|]. by simpl. }
  simpl. by rewrite !app_nil_r.
Qed.

Lemma timers_reveal_end pid N (rs : list AgentResponse) (c : Z) (w : World) :
  timers_of (log (reveal_end env pid N rs c w))
  = timers_of (log w) ++ mjoin (replicate (length rs) [800; 1200]%Z).
Proof.
  revert c w. induction rs as [|a rs IH]; intros c w.
  - simpl. by rewrite app_nil_r.
  - cbn [reveal_end length replicate mjoin]. rewrite IH.
    cbn [after_agent log]. rewrite !timers_of_app. simpl.
    by rewrite !app_nil_r, <- !app_assoc.
Qed.

(** X10. A query answered in full with [N] results waits for [2 N] timers:
    800 ms then 1200 ms for each result, in that order, and for no other.  A
    query whose request is rejected waits for none. *)
Theorem sendMessage_pacing (text : string) (w : World) :
  let w' := (sendMessage env text w).2 in
  (∀ plan rs, outcome env text w = inr (reply plan rs) →
     timers_of (log w')
     = timers_of (log w) ++ mjoin (replicate (length rs) [800; 1200]%Z)) ∧
  (∀ e, outcome env text w = inl e → timers_of (log w') = timers_of (log w)).
Proof.
  cbn zeta. split.
  - intros plan rs H. rewrite (sendMessage_ok _ _ _ _ _ H).
    cbn [snd settled log]. rewrite timers_of_app, timers_reveal_end.
    cbn [planned emit greeted log]. rewrite !timers_of_app, timers_entered.
    simpl. by rewrite !app_nil_r.
  - intros e H. rewrite sendMessage_stages. unfold try_catch.
    rewrite (sendMessage_try_rejected env _ _ _ _ _ e H).
    rewrite sendMessage_catch_run.
    cbn [snd failed_world emit greeted log].
    rewrite !timers_of_app, timers_entered. simpl. by rewrite !app_nil_r.
Qed.

(** *** The timeline of the chat *)

Lemma analysisMessages_app (l1 l2 : list Message.t) :
  analysisMessages (l1 ++ l2) = analysisMessages l1 ++ analysisMessages l2.
Proof. apply filter_app. Qed.

Lemma analysisMessages_cons (m : Message.t) (ms : list Message.t) :
  analysisMessages (m :: ms)
  = if decide (Message.type m = type_analysis)
    then m :: analysisMessages ms else analysisMessages ms.
Proof. unfold analysisMessages. by rewrite filter_cons. Qed.

Lemma analysis_texts_map (f : Message.t → Message.t) (ms : list Message.t) :
  (∀ m, Message.type (f m) = Message.type m) →
  (∀ m, Message.text (f m) = Message.text m) →
  Message.text <$> analysisMessages (f <$> ms)
  = Message.text <$> analysisMessages ms.
Proof.
  intros Hty Htx. induction ms as [|m ms IH]; [done|].
  rewrite fmap_cons, !analysisMessages_cons, Hty.
  destruct (decide _); [|done]. by rewrite !fmap_cons, IH, Htx.
Qed.

Lemma analysis_texts_settle_all pid (ms : list Message.t) :
  Message.text <$> analysisMessages (settle_all pid ms)
  = Message.text <$> analysisMessages ms.
Proof. apply analysis_texts_map; intros m; by destruct (decide _). Qed.

Lemma analysis_resultMsgs (n : nat) (rs : list AgentResponse) :
  Message.text <$> analysisMessages (resultMsgs env n rs) = ar_agent <$> rs.
Proof.
  revert n. induction rs as [|a rs IH]; intros n; [done|].
  cbn [resultMsgs].
  rewrite analysisMessages_cons, decide_True by done. by rewrite !fmap_cons, IH.
Qed.

(** X11. The timeline of the chat shows the messages of type [analysis].
    A query answered in full adds to it, after the nodes there were, one
    node for the plan and one for each result, in the order of the reply;
    the user's message and the reasoning are no nodes.  A query whose
    request is rejected leaves the timeline as it was. *)
Theorem sendMessage_timeline (text : string) (w : World) :
  let ms' := messages (store (sendMessage env text w).2) in
  (∀ plan rs, outcome env text w = inr (reply plan rs) →
     Message.text <$> analysisMessages ms'
     = (Message.text <$> analysisMessages (messages (store w)))
       ++ "Agent Execution Strategy" :: (ar_agent <$> rs)) ∧
  (∀ e, outcome env text w = inl e →
     analysisMessages ms' = analysisMessages (messages (store w))).
Proof.
  cbn zeta. split.
  - intros plan rs H. rewrite (messages_sendMessage_ok _ _ _ _ _ H).
    rewrite analysisMessages_app, fmap_app, analysis_texts_settle_all.
    rewrite analysisMessages_app, fmap_app.
    rewrite (analysisMessages_cons (Message.settle _)), decide_True by done.
    rewrite fmap_cons, analysis_resultMsgs.
    rewrite !analysisMessages_cons, !decide_False by done.
    change (analysisMessages []) with (@nil Message.t).
    by rewrite fmap_nil, app_nil_r.
  - intros e H. rewrite sendMessage_stages. unfold try_catch.
    rewrite (sendMessage_try_rejected env _ _ _ _ _ e H).
    rewrite sendMessage_catch_run.
    cbn [snd failed_world emit store messages set_isThinking
         set_processingStep set_messages].
    rewrite messages_greeted, !analysisMessages_app.
    rewrite !analysisMessages_cons, !decide_False by done.
    change (analysisMessages []) with (@nil Message.t).
    by rewrite !app_nil_r.
Qed.

(** X12. Once a message was sent the chat no longer shows its greeting,
    whatever became of the query; after [resetSession] it shows it again,
    and the timeline is empty. *)
Theorem zero_state_left_and_restored (text : string) (w : World) :
  zeroState (store (sendMessage env text w).2) = false ∧
  zeroState (store (resetSession w).2) = true ∧
  analysisMessages (messages (store (resetSession w).2)) = [].
Proof.
  split; [|done]. unfold zeroState. apply bool_decide_eq_false.
  pose proof (sendMessage_grows env text w). lia.
Qed.

(** *** The cards *)

Lemma lookup_resultMsgs (n : nat) (rs : list AgentResponse) (k : nat)
    (a : AgentResponse) :
  rs !! k = Some a →
  resultMsgs env n rs !! k = Some (resultMsg env (n + 2 * k) a).
Proof.
  revert n k. induction rs as [|b rs IH]; intros n k Hk; [done|].
  destruct k as [|k].
  - injection Hk as ->. simpl. do 3 f_equal. lia.
  - cbn [resultMsgs]. rewrite lookup_cons. rewrite (IH _ k Hk).
    do 2 f_equal. lia.
Qed.

Lemma length_settle_all pid (ms : list Message.t) :
  length (settle_all pid ms) = length ms.
Proof. apply length_fmap. Qed.

(** X13. After a query answered in full, the third message appended is the
    plan's card: it is headed "Orchestrator Plan", also when the plan names
    no agent, and a click on it, in whatever state, cannot throw and
    publishes two states that differ from the one before in the panel and
    the selection only: first no agent selected and the right panel closed,
    then the panel open. *)
Theorem plan_card_opens_plan (text : string) (w : World) plan rs :
  outcome env text w = inr (reply plan rs) →
  ∃ m, messages (store (sendMessage env text w).2)
         !! (length (messages (store w)) + 2) = Some m ∧
       cardHeading m = "Orchestrator Plan" ∧
       ∀ w0, (cardClick m w0).1 = inr tt ∧
             snapshots (cardClick m w0).2
             = snapshots w0
               ++ [set_isRightPanelOpen false
                     (set_selectedAgentId None (store w0));
                   set_isRightPanelOpen true
                     (set_selectedAgentId None (store w0))].
Proof.
  intros H. eexists. split.
  { rewrite (messages_sendMessage_ok _ _ _ _ _ H).
    rewrite lookup_app_r by (rewrite length_settle_all, length_app; simpl; lia).
    rewrite length_settle_all, length_app. simpl.
    replace (_ - _) with 0 by lia. reflexivity. }
  split; [done|]. intros w0. split; [done|].
  unfold snapshots. cbn [cardClick]. simpl.
  rewrite !states_of_app. simpl. by rewrite <- app_assoc.
Qed.

(** X14. After a query answered in full, the card of the [k]-th result is
    headed by its agent's name ("Agent Artifact" if the name is empty).  A
    click on it selects that agent and leaves the right panel open if the
    result carries a payload that is truthy; if the payload is missing or
    falsy the click does nothing at all: no state is published and the
    report cannot be opened from the card. *)
Theorem result_card_opens_result (text : string) (w : World) plan rs (k : nat)
    (a : AgentResponse) :
  outcome env text w = inr (reply plan rs) →
  rs !! k = Some a →
  ∃ m, messages (store (sendMessage env text w).2)
         !! (length (messages (store w)) + 3 + k) = Some m ∧
       cardHeading m = or_else (Some (ar_agent a)) "Agent Artifact" ∧
       ∀ w0, match ar_data a with
             | Some v =>
                 if truthy v
                 then store (cardClick m w0).2
                      = set_isRightPanelOpen true
                          (set_selectedAgentId (or_null (Some (ar_agent a)))
                             (store w0))
                 else cardClick m w0 = (inr tt, w0)
             | None => cardClick m w0 = (inr tt, w0)
             end.
Proof.
  intros H Hk. exists (resultMsg env (ticks (planned env plan
              (emit (EApi (query text w)) (greeted env text w))) + 2 * k) a).
  split.
  { rewrite (messages_sendMessage_ok _ _ _ _ _ H).
    rewrite lookup_app_r by (rewrite length_settle_all, length_app; simpl; lia).
    rewrite length_settle_all, length_app. cbn [length].
    replace (_ - _) with (S k) by lia.
    rewrite lookup_cons. by apply lookup_resultMsgs. }
  split; [done|]. intros w0.
  unfold cardClick, isResult, isPlan. simpl.
  destruct (ar_data a) as [v|]; [|done]. by destruct (truthy v).
Qed.

End Settled.

Lemma sendMessage_statuses_witness :
  outcome mixed_env "Forecast Q3 demand" fresh
  = inr (reply demo_plan [ok_agent "Harvester"; failed_agent "Forecaster"]) ∧
  let st := agentStatuses
              (store (sendMessage mixed_env "Forecast Q3 demand" fresh).2) in
  st !! "Harvester" = Some completed ∧
  st !! "Forecaster" = Some failed ∧
  st !! "Optimizer" = None.
Proof.
  split; [reflexivity|].
  destruct (sendMessage_statuses mixed_env "Forecast Q3 demand" fresh demo_plan
              [ok_agent "Harvester"; failed_agent "Forecaster"] eq_refl)
    as [Hin Hout].
  split; [|split].
  - apply (Hin [] (ok_agent "Harvester") [failed_agent "Forecaster"] eq_refl).
    by repeat constructor.
  - apply (Hin [ok_agent "Harvester"] (failed_agent "Forecaster") [] eq_refl).
    constructor.
  - rewrite (Hout "Optimizer"); [done|]. by repeat constructor.
Defined.

Lemma sendMessage_settles_witness :
  outcome demo_env "Forecast Q3 demand" fresh
  = inr (reply demo_plan [ok_agent "Harvester"; ok_agent "Forecaster"]) ∧
  let s' := store (sendMessage demo_env "Forecast Q3 demand" fresh).2 in
  isThinking s' = false ∧ processingStep s' = None ∧
  selectedAgentId s' = None ∧ isRightPanelOpen s' = true ∧
  currentPlan s' = Some demo_plan.
Proof.
  split; [reflexivity|].
  apply (sendMessage_settles demo_env "Forecast Q3 demand" fresh demo_plan
           [ok_agent "Harvester"; ok_agent "Forecaster"]).
  reflexivity.
Defined.

Lemma sendMessage_failure_keeps_witness :
  failure_of (outcome broken_env "Forecast Q3 demand" fresh)
  = Some (TypeError "null" "agent") ∧
  let w' := (sendMessage broken_env "Forecast Q3 demand" fresh).2 in
  ∃ (states : list UIState.t) (before : UIState.t) (errMsg : Message.t),
    snapshots w' = states ++ [before; store w'] ∧
    store w'
    = set_isThinking false
        (set_processingStep None
           (set_messages (messages before ++ [errMsg]) before)).
Proof.
  split; [reflexivity|].
  apply (sendMessage_failure_keeps broken_env "Forecast Q3 demand" fresh
           (TypeError "null" "agent")).
  reflexivity.
Defined.

Lemma sendMessage_pacing_witness :
  outcome demo_env "Forecast Q3 demand" fresh
  = inr (reply demo_plan [ok_agent "Harvester"; ok_agent "Forecaster"]) ∧
  timers_of (log (sendMessage demo_env "Forecast Q3 demand" fresh).2)
  = [800; 1200; 800; 1200]%Z ∧
  outcome offline_env "Forecast Q3 demand" fresh = inl network_error ∧
  timers_of (log (sendMessage offline_env "Forecast Q3 demand" fresh).2) = [].
Proof.
  split; [reflexivity|]. split.
  - destruct (sendMessage_pacing demo_env "Forecast Q3 demand" fresh) as [H _].
    apply (H demo_plan [ok_agent "Harvester"; ok_agent "Forecaster"]).
    reflexivity.
  - split; [reflexivity|].
    destruct (sendMessage_pacing offline_env "Forecast Q3 demand" fresh)
      as [_ H].
    apply (H network_error). reflexivity.
Defined.

Lemma sendMessage_timeline_witness :
  outcome demo_env "Forecast Q3 demand" fresh
  = inr (reply demo_plan [ok_agent "Harvester"; ok_agent "Forecaster"]) ∧
  Message.text <$>
    analysisMessages
      (messages (store (sendMessage demo_env "Forecast Q3 demand" fresh).2))
  = ["Agent Execution Strategy"; "Harvester"; "Forecaster"] ∧
  outcome offline_env "Forecast Q3 demand" fresh = inl network_error ∧
  analysisMessages
    (messages (store (sendMessage offline_env "Forecast Q3 demand" fresh).2))
  = [].
Proof.
  split; [reflexivity|]. split.
  - destruct (sendMessage_timeline demo_env "Forecast Q3 demand" fresh)
      as [H _].
    apply (H demo_plan [ok_agent "Harvester"; ok_agent "Forecaster"]).
    reflexivity.
  - split; [reflexivity|].
    destruct (sendMessage_timeline offline_env "Forecast Q3 demand" fresh)
      as [_ H].
    apply (H network_error). reflexivity.
Defined.

Lemma plan_card_opens_plan_witness :
  outcome demo_env "Forecast Q3 demand" fresh
  = inr (reply demo_plan [ok_agent "Harvester"; ok_agent "Forecaster"]) ∧
  ∃ m, messages (store (sendMessage demo_env "Forecast Q3 demand" fresh).2)
         !! (length (messages (store fresh)) + 2) = Some m ∧
       cardHeading m = "Orchestrator Plan" ∧
       ∀ w0, (cardClick m w0).1 = inr tt ∧
             snapshots (cardClick m w0).2
             = snapshots w0
               ++ [set_isRightPanelOpen false
                     (set_selectedAgentId None (store w0));
                   set_isRightPanelOpen true
                     (set_selectedAgentId None (store w0))].
Proof.
  split; [reflexivity|].
  apply (plan_card_opens_plan demo_env "Forecast Q3 demand" fresh demo_plan
           [ok_agent "Harvester"; ok_agent "Forecaster"]).
  reflexivity.
Defined.

Lemma result_card_opens_result_witness :
  outcome mixed_env "Forecast Q3 demand" fresh
  = inr (reply demo_plan [ok_agent "Harvester"; failed_agent "Forecaster"]) ∧
  [ok_agent "Harvester"; failed_agent "Forecaster"] !! 1
  = Some (failed_agent "Forecaster") ∧
  ∃ m, messages (store (sendMessage mixed_env "Forecast Q3 demand" fresh).2)
         !! (length (messages (store fresh)) + 3 + 1) = Some m ∧
       cardHeading m = "Forecaster" ∧
       ∀ w0, cardClick m w0 = (inr tt, w0).
Proof.
  split; [reflexivity|]. split; [reflexivity|].
  apply (result_card_opens_result mixed_env "Forecast Q3 demand" fresh
           demo_plan [ok_agent "Harvester"; failed_agent "Forecaster"] 1
           (failed_agent "Forecaster")); reflexivity.
Defined.

(** ** The layout and the theme *)

Lemma applyTheme_dark (mode : bool) (classList : gset string) :
  "dark" ∈ applyTheme mode classList ↔ mode = true.
Proof.
  unfold applyTheme. destruct mode.
  - rewrite elem_of_union, elem_of_singleton. split; [done|by left].
  - rewrite elem_of_difference, elem_of_singleton. split; [by intros [_ ?]|done].
Qed.

Lemma applyTheme_others (mode : bool) (classList : gset string) (c : string) :
  c ≠ "dark" → c ∈ applyTheme mode classList ↔ c ∈ classList.
Proof.
  intros Hc. unfold applyTheme. destruct mode.
  - rewrite elem_of_union, elem_of_singleton. split; [by intros [?|?]|by right].
  - rewrite elem_of_difference, elem_of_singleton. split; [by intros [? _]|done].
Qed.

(** X15. [toggleTheme] cannot throw and flips the theme flag, writing no
    other field.  Whatever the class list of the document's root was, it
    then holds the class [dark] exactly if the flag is set, its other
    classes are as they were, and the effect with which the pages apply the
    flag to the root finds nothing to change. *)
Theorem toggleTheme_syncs (classList : gset string) (w : World) :
  let r := toggleTheme classList w in
  ∃ classList', r.1 = inr classList' ∧
    store r.2 = set_isDarkMode (negb (isDarkMode (store w))) (store w) ∧
    ("dark" ∈ classList' ↔ isDarkMode (store r.2) = true) ∧
    (∀ c, c ≠ "dark" → c ∈ classList' ↔ c ∈ classList) ∧
    applyTheme (isDarkMode (store r.2)) classList' = classList'.
Proof.
  cbn zeta. eexists. split; [reflexivity|]. split; [done|].
  split; [apply applyTheme_dark|]. split; [intros c; apply applyTheme_others|].
  apply set_eq. intros c. simpl.
  destruct (decide (c = "dark")) as [->|Hc].
  - by rewrite !applyTheme_dark.
  - by rewrite !applyTheme_others.
Qed.



(** ** The input panel and the titles of the timeline *)

(** X17. The input panel takes the action it calls from the store under
    the name [runSimulation], and the store is created without a member of
    that name.  So [handleSubmit] of the panel, given a text that is not
    blank, throws the [TypeError] of calling [undefined]: the world, and so
    the store, is as it was, the text field keeps the text, and
    [sendMessage] is not reached.  Given a blank text it returns with
    everything as it was.  Under the name [sendMessage] the same panel would
    hand the text to [sendMessage]. *)
Theorem handleSubmit_without_runSimulation (env : Env) (text : string) :
  member_of "runSimulation" (useUIStore env) = None ∧
  (∃ submit, InputPanel_handleSubmit env "runSimulation" text = Some submit ∧
     ∀ w, submit w
          = (if decide (trim text = "") then inr text
             else inl (not_a_function "runSimulation"), w) ∧
          textField text (submit w) = text) ∧
  InputPanel_handleSubmit env "sendMessage" text
  = Some (handleSubmit (sendMessage env) text).
Proof.
  split; [done|]. split; [|done].
  eexists. split; [reflexivity|]. intros w.
  unfold handleSubmit, textField. by destruct (decide _).
Qed.

(** X18. [getAnalysisTitle] reads the properties [title] and [content] of
    its argument, and a message has neither (its words are in [text]): for
    every message of the timeline the title is "Analysis " and the node's
    rank, whatever the message says, and none of the keyword titles is
    shown. *)
Theorem timeline_titles_are_ranks (toLowerCase : string → string)
    (msg : Message.t) (idx : nat) :
  getAnalysisTitle toLowerCase (titled_of msg) idx
  = "Analysis " +:+ pretty (Z.of_nat idx + 1)%Z.
Proof.
  unfold getAnalysisTitle, titled_of, string_props.
  by destruct (Message.status msg) as [[]|].
Qed.
